(** * Quality runners of [vmaf.core.quality_runner]

    A shallow embedding of the score post-processing chain and of the two
    log readers of [quality_runner.py], followed by the properties the
    specification states about them.

    Numbers.  The Python code computes on IEEE doubles (plain [float]s and
    numpy arrays of them).  They are embedded as exact rationals [Q]:
    comparisons and the four operations are the exact ones, there is no
    rounding.  Results are therefore compared with [==] ([Qeq]),
    elementwise on sequences.  The one operation of the code that leaves
    the finite doubles is the array division of [_rescale]; its result is
    an array of [np.float64], which holds a rational, [nan] or an
    infinity.

    Python values whose type the code does not fix (entries of the
    [score_transform] dictionary, keyword arguments, option dictionaries)
    are embedded in the small universe [value]; dictionaries with string
    keys are [gmap string _]; exceptions are the constructors of [exn] and
    a computation that may raise lives in [result]. *)

From Stdlib Require Import Ascii String QArith Qminmax Lqa.
From stdpp Require Import gmap strings list.

Open Scope Q_scope.

(** ** Python preliminaries *)

Module Py.

Inductive exn : Type :=
| AssertionError
| KeyError (key : string)
| ValueError
| TypeError.

Inductive result (A : Type) : Type :=
| Ok (a : A)
| Raise (e : exn).
Arguments Ok {A} a.
Arguments Raise {A} e.

Definition bind {A B} (f : A → result B) (m : result A) : result B :=
  match m with
  | Ok a => f a
  | Raise e => Raise e
  end.

#[export] Instance result_ret : MRet result := λ A a, Ok a.
#[export] Instance result_bind : MBind result := λ A B f m, bind f m.

(** [assert cond] *)
Definition assert (cond : bool) : result unit :=
  if cond then Ok tt else Raise AssertionError.

(** Left-to-right loop whose body may raise: [for x in xs: st = body st x]. *)
Fixpoint for_each {S A} (body : S → A → result S) (st : S) (xs : list A)
  : result S :=
  match xs with
  | [] => Ok st
  | x :: xs' => st' ← body st x; for_each body st' xs'
  end.

Definition succeeds {A} (r : result A) : Prop := ∃ a, r = Ok a.
Definition fails {A} (r : result A) : Prop := ∃ e, r = Raise e.

(** The values a dictionary entry or a keyword argument may hold. *)
Inductive value : Type :=
| VNone
| VBool (b : bool)
| VNum (q : Q)
| VStr (s : string).

(** [v is True]: identity with the singleton [True]. *)
Definition is_True (v : value) : bool :=
  match v with
  | VBool true => true
  | _ => false
  end.

(** [v == s] for a string literal [s]: only a string compares equal. *)
Definition eq_str (v : value) (s : string) : bool :=
  match v with
  | VStr s' => bool_decide (s' = s)
  | _ => false
  end.

(** A value used as an operand of numpy arithmetic on a double array:
    numbers are taken as they are, [bool] is a subclass of [int], anything
    else is a [TypeError]. *)
Definition as_number (v : value) : result Q :=
  match v with
  | VNum q => Ok q
  | VBool b => Ok (if b then 1 else 0)
  | VNone | VStr _ => Raise TypeError
  end.

(** [d[k]] *)
Definition getitem {V} (d : gmap string V) (k : string) : result V :=
  match d !! k with
  | Some v => Ok v
  | None => Raise (KeyError k)
  end.

(** [k in d] *)
Definition contains {V} (k : string) (d : gmap string V) : bool :=
  bool_decide (is_Some (d !! k)).

End Py.
Import Py.

(** Comparisons of doubles, as booleans. *)
Definition Qgtb (x y : Q) : bool := negb (Qle_bool x y).
Definition Qltb (x y : Q) : bool := negb (Qle_bool y x).

(** ** numpy on one-dimensional arrays of doubles *)

Module np.

(** [np.zeros(a.shape)] *)
Definition zeros_like (a : list Q) : list Q := replicate (length a) 0.

(** [np.clip(a, lb, ub)] is [minimum(maximum(a, lb), ub)]. *)
Definition clip1 (lb ub v : Q) : Q := Qmin (Qmax v lb) ub.
Definition clip (a : list Q) (lb ub : Q) : list Q := clip1 lb ub <$> a.

(** [np.minimum(a, b)] and [np.maximum(a, b)] on arrays of equal shape. *)
Definition minimum (a b : list Q) : list Q := zip_with Qmin a b.
Definition maximum (a b : list Q) : list Q := zip_with Qmax a b.

(** [a + b], [a * b] on arrays of equal shape; [a + c], [c * a] with a
    scalar [c] broadcast. *)
Definition add (a b : list Q) : list Q := zip_with Qplus a b.
Definition mul (a b : list Q) : list Q := zip_with Qmult a b.
Definition add_scalar (a : list Q) (c : Q) : list Q := (λ v, v + c) <$> a.
Definition sub_scalar (a : list Q) (c : Q) : list Q := (λ v, v - c) <$> a.
Definition scalar_mul (c : Q) (a : list Q) : list Q := (λ v, c * v) <$> a.

(** An element of the array a division returns: [finite q] for a finite
    double, or one of the values a division by zero produces. *)
Inductive float64 : Type :=
| finite (q : Q)
| nan
| inf (negative : bool).

Definition is_finite (x : float64) : bool :=
  match x with
  | finite _ => true
  | nan | inf _ => false
  end.

(** [a / c] with a scalar [c]: an array of the length of [a].  The
    division never raises: for a zero divisor numpy only warns and the
    element is [nan] when the dividend is zero too, and otherwise an
    infinity of the sign of the dividend (the zero divisor taken as
    positive, as the difference of two equal doubles is). *)
Definition div1 (c v : Q) : float64 :=
  if Qeq_bool c 0 then
    if Qeq_bool v 0 then nan else inf (Qltb v 0)
  else finite (v / c).
Definition div_scalar (a : list Q) (c : Q) : list float64 := div1 c <$> a.

End np.

(** ** class QualityRunner: result keys *)

Inductive runner : Type :=
| PsnrQualityRunner
| VmafLegacyQualityRunner
| VmafQualityRunner
| VmafPhoneQualityRunner
| VmafossExecQualityRunner
| SsimQualityRunner
| MsSsimQualityRunner
| Adm2QualityRunner
| VifScale0QualityRunner
| VifScale1QualityRunner
| VifScale2QualityRunner
| VifScale3QualityRunner
| MotionQualityRunner
| StrredQualityRunner.

Definition TYPE (cls : runner) : string :=
  match cls with
  | PsnrQualityRunner => "PSNR"
  | VmafLegacyQualityRunner => "VMAF_legacy"
  | VmafQualityRunner => "VMAF"
  | VmafPhoneQualityRunner => "VMAF_Phone"
  | VmafossExecQualityRunner => "VMAFOSSEXEC"
  | SsimQualityRunner => "SSIM"
  | MsSsimQualityRunner => "MS_SSIM"
  | Adm2QualityRunner => "ADM2"
  | VifScale0QualityRunner => "VIF_SCALE0"
  | VifScale1QualityRunner => "VIF_SCALE1"
  | VifScale2QualityRunner => "VIF_SCALE2"
  | VifScale3QualityRunner => "VIF_SCALE3"
  | MotionQualityRunner => "MOTION"
  | StrredQualityRunner => "STRRED"
  end.

Definition get_scores_key (cls : runner) : string := TYPE cls +:+ "_scores".
Definition get_score_key (cls : runner) : string := TYPE cls +:+ "_score".

(** ** class VmafLegacyQualityRunner *)

Module VmafLegacy.

Definition _post_correction (motion score : Q) : Q :=
  let score :=
    if Qgtb motion 12.0 then
      let val := motion in
      let val := if Qgtb val 20.0 then 20 else val in
      score * ((val - 12) * 0.015 + 1)
    else score in
  if Qgtb score 100.0 then 100.0
  else if Qltb score 0.0 then 0.0
  else score.

Definition _rescale (vals : list Q) (lower_upper_bound : Q * Q)
  : list np.float64 :=
  let '(lower_bound, upper_bound) := lower_upper_bound in
  let vals := np.clip vals lower_bound upper_bound in
  np.div_scalar (np.sub_scalar vals lower_bound) (upper_bound - lower_bound).

End VmafLegacy.

(** The correction rule as the specification words it. *)
Definition spec_correction_factor (m : Q) : Q :=
  if Qle_bool m 12.0 then 1 else 1 + (Qmin m 20.0 - 12) * 0.015.

Definition spec_clip_0_100 (s : Q) : Q := Qmin (Qmax s 0) 100.

(** The rescaling of one value as the specification words it. *)
Definition spec_rescale1 (lower upper v : Q) : Q :=
  (np.clip1 lower upper v - lower) / (upper - lower).

(** ** class TrainTestModel (external collaborator)

    The runner uses a loaded model through [predict] and through
    [get_appended_info(key)], which returns [None] for a key that was never
    appended; the two keys read here are [score_transform] and
    [score_clip]. *)

Record TrainTestModel : Type := {
  predict : list (list Q) → list Q;
  score_transform : option (gmap string value);
  score_clip : option (Q * Q);
}.

(** A model without metadata, whose [predict] returns the first feature
    column; used for concrete evaluations. *)
Definition bare_model : TrainTestModel :=
  {| predict := λ xs, (λ x, default 0 (head x)) <$> xs;
     score_transform := None;
     score_clip := None |}.

(** ** class VmafQualityRunner and its subclass VmafPhoneQualityRunner *)

Module Vmaf.

(** [cls._do_transform_score(kwargs)]: the static method of
    VmafQualityRunner, overridden by VmafPhoneQualityRunner. *)
Definition _do_transform_score (cls : runner) (kwargs : gmap string value)
  : bool :=
  match cls with
  | VmafPhoneQualityRunner => true
  | _ =>
      match kwargs !! "enable_transform_score" with
      | Some v => is_True v
      | None => false
      end
  end.

(** [model.append_info(key, value)] for the two keys. *)
Definition set_transform_score (model : TrainTestModel)
    (score_transform : gmap string value) : TrainTestModel :=
  {| predict := predict model;
     score_transform := Some score_transform;
     score_clip := score_clip model |}.

Definition set_clip_score (model : TrainTestModel) (score_clip : Q * Q)
  : TrainTestModel :=
  {| predict := predict model;
     score_transform := score_transform model;
     score_clip := Some score_clip |}.

Definition transform_score (model : TrainTestModel) (ys_pred : list Q)
  : result (list Q) :=
  match score_transform model with
  | None => Ok ys_pred
  | Some transform_dict =>
      let y_in := ys_pred in
      let y_out := np.zeros_like ys_pred in
      (* quadratic transform *)
      y_out ←
        match transform_dict !! "p0" with
        | Some v => p0 ← as_number v; Ok (np.add_scalar y_out p0)
        | None => Ok y_out
        end;
      y_out ←
        match transform_dict !! "p1" with
        | Some v => p1 ← as_number v; Ok (np.add y_out (np.scalar_mul p1 y_in))
        | None => Ok y_out
        end;
      y_out ←
        match transform_dict !! "p2" with
        | Some v =>
            p2 ← as_number v;
            Ok (np.add y_out (np.mul (np.scalar_mul p2 y_in) y_in))
        | None => Ok y_out
        end;
      (* rectification *)
      let y_out :=
        match transform_dict !! "out_lte_in" with
        | Some v => if eq_str v "true" then np.minimum y_out y_in else y_out
        | None => y_out
        end in
      let y_out :=
        match transform_dict !! "out_gte_in" with
        | Some v => if eq_str v "true" then np.maximum y_out y_in else y_out
        | None => y_out
        end in
      Ok y_out
  end.

Definition clip_score (model : TrainTestModel) (ys_pred : list Q) : list Q :=
  match score_clip model with
  | Some (lb, ub) => np.clip ys_pred lb ub
  | None => ys_pred
  end.

Definition predict_with_model (cls : runner) (model : TrainTestModel)
    (xs : list (list Q)) (kwargs : gmap string value) : result (list Q) :=
  let ys_pred := predict model xs in
  let do_transform_score := _do_transform_score cls kwargs in
  ys_pred ←
    (if do_transform_score then transform_score model ys_pred
     else Ok ys_pred);
  let ys_pred :=
    match kwargs !! "disable_clip_score" with
    | Some v => if is_True v then ys_pred else clip_score model ys_pred
    | None => clip_score model ys_pred
    end in
  Ok ys_pred.

End Vmaf.

Module VmafPhone.

(** [_assert_args]: [super_assert_args] is the outcome of the inherited
    [Executor._assert_args], which runs first. *)
Definition _assert_args (super_assert_args : result unit)
    (optional_dict : option (gmap string value)) : result unit :=
  super_assert_args;;
  match optional_dict with
  | Some d => assert (negb (contains "enable_transform_score" d))
  | None => Ok tt
  end.

End VmafPhone.

(** The transform of one score as the specification words it: the
    polynomial, then the two clamps. *)
Definition spec_transform1 (p0 p1 p2 : Q) (out_lte_in out_gte_in : bool)
    (y_in : Q) : Q :=
  let y_out := p0 + p1 * y_in + p2 * y_in ^ 2 in
  let y_out := if out_lte_in then Qmin y_out y_in else y_out in
  if out_gte_in then Qmax y_out y_in else y_out.

(** A coefficient of the transform specification, a missing one being 0. *)
Definition spec_coefficient (d : gmap string value) (k : string) : result Q :=
  match d !! k with
  | Some v => as_number v
  | None => Ok 0
  end.

(** A rectification flag is set when it holds the string ['true']. *)
Definition spec_flag_set (d : gmap string value) (k : string) : bool :=
  match d !! k with
  | Some (VStr "true") => true
  | _ => false
  end.

(** A configuration flag is set when it holds the boolean [True]. *)
Definition spec_option_on (kwargs : gmap string value) (k : string) : bool :=
  match kwargs !! k with
  | Some (VBool true) => true
  | _ => false
  end.

(** Elementwise equality of score sequences. *)
Definition Qlist_eq (a b : list Q) : Prop := Forall2 Qeq a b.

(** ** Text of a log line: the pattern and the two conversions *)

Module re.

Definition is_digit (c : ascii) : bool :=
  let n := nat_of_ascii c in (48 <=? n)%nat && (n <=? 57)%nat.

(** The class [[0-9.-]]. *)
Definition is_value_char (c : ascii) : bool :=
  is_digit c || Ascii.eqb c "." || Ascii.eqb c "-".

(** Longest prefix of [s] in the class [p], and the rest (a greedy
    [[...]*]). *)
Fixpoint span (p : ascii → bool) (s : string) : string * string :=
  match s with
  | String c s' =>
      if p c then let '(a, b) := span p s' in (String c a, b)
      else (EmptyString, s)
  | EmptyString => (EmptyString, EmptyString)
  end.

Fixpoint strip_prefix (p s : string) : option string :=
  match p, s with
  | EmptyString, _ => Some s
  | String a p', String b s' =>
      if Ascii.eqb a b then strip_prefix p' s' else None
  | String _ _, EmptyString => None
  end.

(** [re.match(r"psnr: ([0-9]+) ([0-9.-]+)", line)], giving groups 1 and
    2.  The match is anchored at the start of the line only.  Group 1 is
    followed by a space, which is no digit, so only its longest run can
    match; group 2 ends the pattern and takes its longest run. *)
Definition match_psnr (line : string) : option (string * string) :=
  match strip_prefix "psnr: " line with
  | None => None
  | Some rest =>
      let '(g1, rest) := span is_digit rest in
      match g1, rest with
      | String _ _, String " " rest =>
          let '(g2, _) := span is_value_char rest in
          match g2 with
          | String _ _ => Some (g1, g2)
          | EmptyString => None
          end
      | _, _ => None
      end
  end.

End re.

(** Value of a string of decimal digits read after [acc]. *)
Fixpoint digits_value (acc : N) (s : string) : N :=
  match s with
  | String c s' => digits_value (acc * 10 + (N_of_ascii c - 48))%N s'
  | EmptyString => acc
  end.

(** [int(s)] for a non-empty string of digits. *)
Definition py_int (s : string) : N := digits_value 0 s.

(** [float(tok)] for a token over the alphabet [[0-9.-]], the only tokens
    group 2 can hold: an optional minus sign, then digits with at most one
    point and at least one digit; anything else is a [ValueError]. *)
Definition py_float (tok : string) : result Q :=
  let '(negative, body) :=
    match tok with
    | String "-" r => (true, r)
    | _ => (false, tok)
    end in
  let signed (n : N) : Z := if negative then (- Z.of_N n)%Z else Z.of_N n in
  let '(int_part, rest) := re.span re.is_digit body in
  match rest with
  | EmptyString =>
      match int_part with
      | EmptyString => Raise ValueError
      | _ => Ok (inject_Z (signed (py_int int_part)))
      end
  | String "." rest =>
      let '(frac_part, rest) := re.span re.is_digit rest in
      match rest, (int_part +:+ frac_part)%string with
      | EmptyString, String _ _ =>
          Ok (Qmake (signed (py_int (int_part +:+ frac_part)))
                (Z.to_pos (10 ^ Z.of_nat (String.length frac_part))))
      | _, _ => Raise ValueError
      end
  | String _ _ => Raise ValueError
  end.

(** ** class PsnrQualityRunner *)

Module Psnr.

(** Body of the loop over the lines; the state is
    [(psnr_scores, counter)]. *)
Definition scan_line (st : list Q * N) (line : string)
  : result (list Q * N) :=
  let '(psnr_scores, counter) := st in
  match re.match_psnr line with
  | Some (g1, g2) =>
      let cur_idx := py_int g1 in
      assert (cur_idx =? counter)%N;;
      v ← py_float g2;
      Ok (psnr_scores ++ [v], (counter + 1)%N)
  | None => Ok st
  end.

(** [log_file] is [log_file.readlines()]. *)
Definition _get_quality_scores (log_file : list string)
  : result (gmap string (list Q)) :=
  '(psnr_scores, _) ← for_each scan_line ([], 0%N) log_file;
  assert (negb (length psnr_scores =? 0)%nat);;
  let scores_key := get_scores_key PsnrQualityRunner in
  Ok {[ scores_key := psnr_scores ]}.

End Psnr.

(** The matched lines of a log, each as its frame index and value token. *)
Definition matched_records (log_file : list string) : list (N * string) :=
  omap (λ line,
          match re.match_psnr line with
          | Some (g1, g2) => Some (py_int g1, g2)
          | None => None
          end) log_file.

(** [start, start + 1, ...], [n] numbers. *)
Fixpoint run_from (start : N) (n : nat) : list N :=
  match n with
  | O => []
  | S n' => start :: run_from (start + 1)%N n'
  end.

(** The indices are the run 0, 1, 2, ... *)
Definition contiguous_from_zero (idxs : list N) : Prop :=
  idxs = run_from 0 (length idxs).

(** The loop body of [Psnr._get_quality_scores] on a matched record. *)
Definition scan_record (st : list Q * N) (r : N * string)
  : result (list Q * N) :=
  let '(psnr_scores, counter) := st in
  let '(cur_idx, tok) := r in
  assert (cur_idx =? counter)%N;;
  v ← py_float tok;
  Ok (psnr_scores ++ [v], (counter + 1)%N).

(** The values of the matched lines, in line order. *)
Definition record_values (log_file : list string) : result (list Q) :=
  mapM py_float (snd <$> matched_records log_file).

(** ** class VmafossExecQualityRunner *)

(** [enumerate(l)] *)
Definition enumerate {A} (l : list A) : list (nat * A) :=
  zip (seq 0 (length l)) l.

Module VmafossExec.

Definition FEATURES : list string :=
  ["adm2"; "adm_scale0"; "adm_scale1"; "adm_scale2"; "adm_scale3";
   "motion"; "vif_scale0"; "vif_scale1"; "vif_scale2";
   "vif_scale3"; "vif"; "psnr"; "ssim"; "ms_ssim"; "motion2"]%string.

Definition get_feature_scores_key (atom_feature : string) : string :=
  TYPE VmafossExecQualityRunner +:+ "_" +:+ atom_feature +:+ "_scores".

Section parse.

(** [float(s)] on an attribute value: Python's conversion of an
    arbitrary string, raising [ValueError] on a malformed one. *)
Variable float : string → result Q.

(** Body of the inner loop, for one frame: the [KeyError] of a missing
    attribute is caught, nothing else is. *)
Definition scan_feature (frame : gmap string string)
    (feature_scores : list (list Q)) (e : nat * string)
  : result (list (list Q)) :=
  let '(i_feature, feature) := e in
  match frame !! feature with
  | Some s =>
      v ← float s;
      Ok (alter (λ l, l ++ [v]) i_feature feature_scores)
  | None => Ok feature_scores
  end.

(** Body of the loop over the frames; the state is
    [(scores, feature_scores)]. *)
Definition scan_frame (st : list Q * list (list Q))
    (frame : gmap string string) : result (list Q * list (list Q)) :=
  let '(scores, feature_scores) := st in
  s ← getitem frame "vmaf";
  v ← float s;
  let scores := scores ++ [v] in
  feature_scores ←
    for_each (scan_feature frame) feature_scores (enumerate FEATURES);
  Ok (scores, feature_scores).

(** Body of the loop that fills the result. *)
Definition publish_feature (feature_scores : list (list Q))
    (quality_result : gmap string (list Q)) (e : nat * string)
  : gmap string (list Q) :=
  let '(i_feature, feature) := e in
  let l := default [] (feature_scores !! i_feature) in
  if negb (length l =? 0)%nat
  then <[get_feature_scores_key feature := l]> quality_result
  else quality_result.

(** [frames] is [root.findall('frames/frame')], each frame given by
    its attribute dictionary. *)
Definition _get_quality_scores (frames : list (gmap string string))
  : result (gmap string (list Q)) :=
  let scores := [] in
  let feature_scores := (λ _, []) <$> FEATURES in
  '(scores, feature_scores) ←
    for_each scan_frame (scores, feature_scores) frames;
  assert (negb (length scores =? 0)%nat);;
  let quality_result :=
    {[ get_scores_key VmafossExecQualityRunner := scores ]} in
  Ok (foldl (publish_feature feature_scores) quality_result
        (enumerate FEATURES)).

(** The values of attribute [k] over the frames that carry it, in frame
    order. *)
Definition attribute_values (k : string)
    (frames : list (gmap string string)) : list Q :=
  omap (λ frame : gmap string string,
          match frame !! k with
          | Some s =>
              match float s with Ok v => Some v | Raise _ => None end
          | None => None
          end) frames.

(** What one frame contributes to the sequence of attribute [k]. *)
Definition contribution (frame : gmap string string) (k : string)
  : list Q :=
  attribute_values k [frame].

(** The loop that fills the result, read off the sequences. *)
Definition publish (frames : list (gmap string string))
    (quality_result : gmap string (list Q)) (feature : string)
  : gmap string (list Q) :=
  match attribute_values feature frames with
  | [] => quality_result
  | l => <[get_feature_scores_key feature := l]> quality_result
  end.

(** Every attribute of the frame that the parser reads converts. *)
Definition numeric_frame (frame : gmap string string) : Prop :=
  ∀ k s, k ∈ "vmaf"%string :: FEATURES → frame !! k = Some s →
         succeeds (float s).

End parse.

End VmafossExec.

(** ** class VmafSingleFeatureQualityRunner and its six subclasses *)

Inductive single_feature_runner : Type :=
| Adm2 | VifScale0 | VifScale1 | VifScale2 | VifScale3 | Motion.

Definition runner_of (cls : single_feature_runner) : runner :=
  match cls with
  | Adm2 => Adm2QualityRunner
  | VifScale0 => VifScale0QualityRunner
  | VifScale1 => VifScale1QualityRunner
  | VifScale2 => VifScale2QualityRunner
  | VifScale3 => VifScale3QualityRunner
  | Motion => MotionQualityRunner
  end.

Definition FEATURE_NAME (cls : single_feature_runner) : string :=
  match cls with
  | Adm2 => "adm2"
  | VifScale0 => "vif_scale0"
  | VifScale1 => "vif_scale1"
  | VifScale2 => "vif_scale2"
  | VifScale3 => "vif_scale3"
  | Motion => "motion"
  end.

Module VmafSingleFeature.

Section run.

(** The feature provider: [FeatureAssembler(feature_dict=...).run()]
    followed by [results[0]], as a function of the requested
    [feature_dict]; a feature result is read by key. *)
Variable FeatureAssembler_run :
  gmap string (list string) → gmap string (list Q).

(** [VmafFeatureExtractor.get_scores_key(atom_feature)], declared in
    [feature_extractor.py]. *)
Variable VmafFeatureExtractor_get_scores_key : string → string.

Definition _run_on_asset (cls : single_feature_runner)
  : result (gmap string (list Q)) :=
  let feature_result :=
    FeatureAssembler_run {[ "VMAF_feature"%string := [FEATURE_NAME cls] ]} in
  scores ←
    getitem feature_result
      (VmafFeatureExtractor_get_scores_key (FEATURE_NAME cls));
  Ok {[ get_scores_key (runner_of cls) := scores ]}.

End run.

End VmafSingleFeature.

(** Modelled from the spec: [VmafFeatureExtractor.get_scores_key], whose
    class is declared in [feature_extractor.py]; the key scheme is
    ["{type}_{feature-name}_scores"], the type being [VMAF_feature] as in
    the keys of [FEATURE_RESCALE_DICT]. *)
Definition spec_feature_scores_key (atom_feature : string) : string :=
  "VMAF_feature_" +:+ atom_feature +:+ "_scores".

(** ** VmafLegacyQualityRunner: the run on one asset *)

(** [zip] applied to the unpacked list [ls]: the columns of [ls], as many
    as the shortest list has elements. *)
Fixpoint zip_star {A} (ls : list (list A)) : list (list A) :=
  match ls with
  | [] => []
  | [l] => (λ x, [x]) <$> l
  | l :: ls' => zip_with cons l (zip_star ls')
  end.

Module VmafLegacyRun.

Definition FEATURE_RESCALE_DICT : gmap string (Q * Q) :=
  {[ "VMAF_feature_vif_scores"%string := (0.0, 1.0);
     "VMAF_feature_adm_scores"%string := (0.4, 1.0);
     "VMAF_feature_ansnr_scores"%string := (10.0, 50.0);
     "VMAF_feature_motion_scores"%string := (0.0, 20.0) ]}.

Definition SVM_MODEL_ORDERED_SCORES_KEYS : list string :=
  ["VMAF_feature_vif_scores"; "VMAF_feature_adm_scores";
   "VMAF_feature_ansnr_scores"; "VMAF_feature_motion_scores"]%string.

(** Body of the loop that rescales the features, in the order of
    [SVM_MODEL_ORDERED_SCORES_KEYS]. *)
Definition rescale_feature (feature_result : gmap string (list Q))
    (ordered_scaled_scores_list : list (list np.float64))
    (scores_key : string) : result (list (list np.float64)) :=
  vals ← getitem feature_result scores_key;
  lower_upper_bound ← getitem FEATURE_RESCALE_DICT scores_key;
  let scaled_scores := VmafLegacy._rescale vals lower_upper_bound in
  Ok (ordered_scaled_scores_list ++ [scaled_scores]).

(** [_post_correction(motion, score)] for a motion taken from a rescaled
    array.  On a finite motion it is [VmafLegacy._post_correction].  A
    [nan] compares false with everything and a negative infinity is not
    above 12.0: no factor is applied, as for the motion 0.  A positive
    infinity is above 12.0 and above 20.0: [val] becomes 20, as for the
    motion 20. *)
Definition _post_correction_float64 (motion : np.float64) (score : Q)
  : Q :=
  match motion with
  | np.finite m => VmafLegacy._post_correction m score
  | np.nan | np.inf true => VmafLegacy._post_correction 0 score
  | np.inf false => VmafLegacy._post_correction 20 score
  end.

Section run.

(** [svmutil.svm_predict([0], [x], model)[0][0]] for the model of
    [SVM_MODEL_FILE]: the prediction for one feature vector [x]. *)
Variable svm_predict : list np.float64 → Q.

(** Body of the loop over the frames. *)
Definition score_frame (score_vector : list np.float64) : result Q :=
  match score_vector with
  | [vif; adm; ansnr; motion] =>
      let xs := [vif; adm; ansnr; motion] in
      let score := svm_predict xs in
      Ok (_post_correction_float64 motion score)
  | _ => Raise ValueError
  end.

(** [feature_result] is the result of the feature assembler, read by key
    and copied into the result as a dictionary. *)
Definition _run_on_asset (feature_result : gmap string (list Q))
  : result (gmap string (list Q)) :=
  ordered_scaled_scores_list ←
    for_each (rescale_feature feature_result) []
      SVM_MODEL_ORDERED_SCORES_KEYS;
  scores ← mapM score_frame (zip_star ordered_scaled_scores_list);
  Ok (<[get_scores_key VmafLegacyQualityRunner := scores]> feature_result).

End run.

End VmafLegacyRun.

(** The four rescaled feature sequences of a feature result, given its
    four raw sequences. *)
Definition legacy_scaled (vif adm ansnr motion : list Q)
  : list (list np.float64) :=
  [np.finite <$> (spec_rescale1 0.0 1.0 <$> vif);
   np.finite <$> (spec_rescale1 0.4 1.0 <$> adm);
   np.finite <$> (spec_rescale1 10.0 50.0 <$> ansnr);
   np.finite <$> (spec_rescale1 0.0 20.0 <$> motion)].

(** A stand-in for the SVM prediction in concrete evaluations: a hundred
    times the first feature. *)
Definition first_feature_percent (x : list np.float64) : Q :=
  match x with
  | np.finite q :: _ => 100 * q
  | _ => 0
  end.

(** ** VmafQualityRunner: the run on one asset *)

(** [optional_dict[key]] when [optional_dict] is a dictionary that holds
    [key], and [default] otherwise. *)
Definition option_or (optional_dict : option (gmap string value))
    (key : string) (default : value) : value :=
  match optional_dict with
  | Some d =>
      match d !! key with
      | Some v => v
      | None => default
      end
  | None => default
  end.

Module VmafRun.

Section run.

(** [TrainTestModel.from_file(model_filepath, logger)]. *)
Variable from_file : value → TrainTestModel.

(** [VmafConfig.model_path("vmaf_v0.6.1.pkl")]. *)
Variable DEFAULT_MODEL_FILEPATH : value.

(** [model.get_per_unit_xs_from_a_result(feature_result)]. *)
Variable get_per_unit_xs_from_a_result :
  TrainTestModel → gmap string (list Q) → list (list Q).

Definition _load_model (optional_dict : option (gmap string value))
  : TrainTestModel :=
  let model_filepath :=
    match optional_dict with
    | Some d =>
        match d !! "model_filepath" with
        | Some VNone | None => DEFAULT_MODEL_FILEPATH
        | Some v => v
        end
    | None => DEFAULT_MODEL_FILEPATH
    end in
  from_file model_filepath.

(** [feature_result] is the result of the feature assembler, copied into
    the result as a dictionary. *)
Definition _run_on_asset (cls : runner)
    (optional_dict : option (gmap string value))
    (feature_result : gmap string (list Q))
  : result (gmap string (list Q)) :=
  let model := _load_model optional_dict in
  let xs := get_per_unit_xs_from_a_result model feature_result in
  let disable_clip_score :=
    option_or optional_dict "disable_clip_score" (VBool false) in
  let enable_transform_score :=
    option_or optional_dict "enable_transform_score" (VBool false) in
  ys_pred ←
    Vmaf.predict_with_model cls model xs
      {[ "disable_clip_score"%string := disable_clip_score;
         "enable_transform_score"%string := enable_transform_score ]};
  Ok (<[get_scores_key cls := ys_pred]> feature_result).

End run.

End VmafRun.

(** An option of the configuration holds the boolean [True]. *)
Definition option_is_True (optional_dict : option (gmap string value))
    (key : string) : bool :=
  match optional_dict with
  | Some d => spec_option_on d key
  | None => false
  end.

(** ** Character classes over whole strings *)

(** Every character of [s] is in the class [p]. *)
Fixpoint string_forall (p : ascii → bool) (s : string) : bool :=
  match s with
  | String c s' => p c && string_forall p s'
  | EmptyString => true
  end.

(** [s] starts with a character of the class [p]. *)
Definition starts_in (p : ascii → bool) (s : string) : bool :=
  match s with
  | String c _ => p c
  | EmptyString => false
  end.

(** ** SsimQualityRunner, MsSsimQualityRunner, StrredQualityRunner *)

Module FeatureAsScore.

(** The three classes share the body of [_run_on_asset];
    [extractor_scores_key] is the key their feature extractor gives to the
    feature they publish ([SsimFeatureExtractor.get_scores_key('ssim')] and
    the like, declared in [feature_extractor.py]). *)
Definition _run_on_asset (cls : runner) (extractor_scores_key : string)
    (feature_result : gmap string (list Q))
  : result (gmap string (list Q)) :=
  let result_dict := feature_result in
  scores ← getitem feature_result extractor_scores_key;
  let result_dict := <[get_scores_key cls := scores]> result_dict in
  (* del result_dict[extractor_scores_key] *)
  _ ← getitem result_dict extractor_scores_key;
  Ok (delete extractor_scores_key result_dict).

End FeatureAsScore.

(** * Properties *)

Lemma Qgtb_true x y : Qgtb x y = true ↔ y < x.
Proof.
  unfold Qgtb. rewrite negb_true_iff, <- not_true_iff_false, Qle_bool_iff.
  split; [apply Qnot_le_lt | apply Qlt_not_le].
Qed.

Lemma Qgtb_false x y : Qgtb x y = false ↔ x <= y.
Proof. unfold Qgtb. by rewrite negb_false_iff, Qle_bool_iff. Qed.

Lemma Qltb_true x y : Qltb x y = true ↔ x < y.
Proof. apply Qgtb_true. Qed.

Lemma Qltb_false x y : Qltb x y = false ↔ y <= x.
Proof. apply Qgtb_false. Qed.

Ltac case_cmp :=
  repeat match goal with
  | |- context [Qgtb ?x ?y] =>
      let E := fresh "E" in
      destruct (Qgtb x y) eqn:E;
      [apply Qgtb_true in E | apply Qgtb_false in E]
  | |- context [Qltb ?x ?y] =>
      let E := fresh "E" in
      destruct (Qltb x y) eqn:E;
      [apply Qltb_true in E | apply Qltb_false in E]
  | |- context [Qle_bool ?x ?y] =>
      let E := fresh "E" in
      destruct (Qle_bool x y) eqn:E;
      [apply Qle_bool_iff in E
      | apply not_true_iff_false in E; rewrite Qle_bool_iff in E;
        apply Qnot_le_lt in E]
  end.

Ltac case_minmax :=
  repeat match goal with
  | |- context [Qmin ?x ?y] =>
      let q := fresh "q" in
      let Hq := fresh "Hq" in
      pose proof (Q.min_spec x y) as Hq;
      remember (Qmin x y) as q eqn:Heqq in *; clear Heqq;
      destruct Hq as [[? ?]|[? ?]]
  | |- context [Qmax ?x ?y] =>
      let q := fresh "q" in
      let Hq := fresh "Hq" in
      pose proof (Q.max_spec x y) as Hq;
      remember (Qmax x y) as q eqn:Heqq in *; clear Heqq;
      destruct Hq as [[? ?]|[? ?]]
  | H : context [Qmin ?x ?y] |- _ =>
      let q := fresh "q" in
      let Hq := fresh "Hq" in
      pose proof (Q.min_spec x y) as Hq;
      remember (Qmin x y) as q eqn:Heqq in *; clear Heqq;
      destruct Hq as [[? ?]|[? ?]]
  | H : context [Qmax ?x ?y] |- _ =>
      let q := fresh "q" in
      let Hq := fresh "Hq" in
      pose proof (Q.max_spec x y) as Hq;
      remember (Qmax x y) as q eqn:Heqq in *; clear Heqq;
      destruct Hq as [[? ?]|[? ?]]
  end.

(** C1.  The legacy post-correction multiplies the score by the factor
    [1] when the motion is at most 12 and by [1 + (min(m, 20) - 12) * 0.015]
    otherwise, then clips into [[0, 100]]: the returned score always lies
    in that interval.  The factor is 1 at motion 10, 1.075 at 17 and 1.12
    at 25. *)
Theorem post_correction_spec (m s : Q) :
  VmafLegacy._post_correction m s == spec_clip_0_100 (s * spec_correction_factor m)
  ∧ (0 <= VmafLegacy._post_correction m s ∧ VmafLegacy._post_correction m s <= 100)
  ∧ spec_correction_factor 10 == 1.0
  ∧ spec_correction_factor 17 == 1.075
  ∧ spec_correction_factor 25 == 1.12.
Proof.
  split; [|split; [|by vm_compute]].
  - unfold VmafLegacy._post_correction, spec_clip_0_100, spec_correction_factor.
    destruct (Qgtb m 12.0) eqn:E1;
      [destruct (Qgtb m 20.0) eqn:E2; [apply Qgtb_true in E2|apply Qgtb_false in E2];
       apply Qgtb_true in E1
      |apply Qgtb_false in E1];
      case_cmp; case_minmax; nra.
  - unfold VmafLegacy._post_correction.
    destruct (Qgtb m 12.0); [destruct (Qgtb m 20.0)|]; case_cmp; lra.
Qed.

(** ** Rescaling *)

Lemma result_mapM_cons {A B} (f : A → result B) (x : A) (l : list A) :
  mapM f (x :: l) = y ← f x; k ← mapM f l; Ok (y :: k).
Proof. reflexivity. Qed.

Lemma div1_nonzero (c v : Q) : ¬ c == 0 → np.div1 c v = np.finite (v / c).
Proof.
  intros Hc. unfold np.div1.
  destruct (Qeq_bool c 0) eqn:E; [by apply Qeq_bool_iff in E|done].
Qed.

Lemma div1_zero_zero (c v : Q) : c == 0 → v == 0 → np.div1 c v = np.nan.
Proof.
  intros Hc Hv. unfold np.div1.
  apply Qeq_bool_iff in Hc, Hv. by rewrite Hc, Hv.
Qed.

Lemma rescale_nonzero (vals : list Q) (lower upper : Q) :
  ¬ lower == upper →
  VmafLegacy._rescale vals (lower, upper)
  = np.finite <$> (spec_rescale1 lower upper <$> vals).
Proof.
  intros Hne. unfold VmafLegacy._rescale, np.div_scalar, np.sub_scalar, np.clip.
  rewrite <- !list_fmap_compose. apply list_fmap_ext. intros i v _. cbn.
  apply div1_nonzero. intros H. apply Hne. lra.
Qed.

Lemma clip1_bounds (lb ub v : Q) :
  lb <= ub → lb <= np.clip1 lb ub v ∧ np.clip1 lb ub v <= ub.
Proof. intros. unfold np.clip1. case_minmax; lra. Qed.

Lemma clip1_inside (lb ub v : Q) :
  lb <= v → v <= ub → np.clip1 lb ub v == v.
Proof. intros. unfold np.clip1. case_minmax; lra. Qed.

Lemma clip1_mono (lb ub v w : Q) :
  v <= w → np.clip1 lb ub v <= np.clip1 lb ub w.
Proof. intros. unfold np.clip1. case_minmax; lra. Qed.

Lemma clip1_below (lb ub v : Q) :
  lb <= ub → v <= lb → np.clip1 lb ub v == lb.
Proof. intros. unfold np.clip1. case_minmax; lra. Qed.

Lemma clip1_above (lb ub v : Q) :
  ub <= v → np.clip1 lb ub v == ub.
Proof. intros. unfold np.clip1. case_minmax; lra. Qed.

(** C4.  With [lower < upper], rescaling returns elementwise
    [(clip(v, lower, upper) - lower) / (upper - lower)]; the rescaled value
    lies in [[0, 1]], is non-decreasing in [v], is exactly 0 below [lower]
    and exactly 1 above [upper]. *)
Theorem rescale_spec (vals : list Q) (lower upper : Q) :
  lower < upper →
  VmafLegacy._rescale vals (lower, upper)
  = np.finite <$> (spec_rescale1 lower upper <$> vals)
  ∧ (∀ v, lower <= v → v <= upper →
       spec_rescale1 lower upper v == (v - lower) / (upper - lower)
       ∧ 0 <= spec_rescale1 lower upper v ∧ spec_rescale1 lower upper v <= 1)
  ∧ (∀ v w, v <= w → spec_rescale1 lower upper v <= spec_rescale1 lower upper w)
  ∧ (∀ v, v < lower → spec_rescale1 lower upper v == 0)
  ∧ (∀ v, upper < v → spec_rescale1 lower upper v == 1).
Proof.
  intros Hlu.
  assert (Hpos : 0 < upper - lower) by lra.
  assert (Hle : lower <= upper) by lra.
  split; [apply rescale_nonzero; lra|].
  unfold spec_rescale1. repeat split.
  - by rewrite clip1_inside.
  - apply Qle_shift_div_l; [done|].
    pose proof (clip1_bounds lower upper v Hle). lra.
  - apply Qle_shift_div_r; [done|].
    pose proof (clip1_bounds lower upper v Hle). lra.
  - intros v w Hvw. apply Qmult_le_compat_r.
    + pose proof (clip1_mono lower upper v w Hvw). lra.
    + apply Qinv_le_0_compat. lra.
  - intros v Hv. rewrite clip1_below by lra. field. lra.
  - intros v Hv. rewrite clip1_above by lra. field. lra.
Qed.

Lemma rescale_spec_witness :
  VmafLegacy._rescale [5; 10; 30; 50; 70] (10.0, 50.0)
  = np.finite <$> (spec_rescale1 10.0 50.0 <$> [5; 10; 30; 50; 70])
  ∧ spec_rescale1 10.0 50.0 30 == 0.5.
Proof.
  split.
  - apply (rescale_spec [5; 10; 30; 50; 70] 10.0 50.0). reflexivity.
  - reflexivity.
Defined.

Lemma clip1_equal_bounds (lb ub v : Q) : lb == ub → np.clip1 lb ub v == lb.
Proof. intros. unfold np.clip1. case_minmax; lra. Qed.

Lemma clip1_inverted (lb ub v : Q) : ub <= lb → np.clip1 lb ub v == ub.
Proof. intros. unfold np.clip1. case_minmax; lra. Qed.

Lemma rescale_equal_bounds (vals : list Q) (lower upper : Q) :
  lower == upper →
  VmafLegacy._rescale vals (lower, upper) = (λ _, np.nan) <$> vals.
Proof.
  intros Heq. unfold VmafLegacy._rescale, np.div_scalar, np.sub_scalar, np.clip.
  rewrite <- !list_fmap_compose. apply list_fmap_ext. intros i v _. cbn.
  apply div1_zero_zero; [lra|].
  pose proof (clip1_equal_bounds lower upper v Heq). lra.
Qed.

(** C10 (as stated), refuted: with the inverted bounds (1, 0) the
    precondition [lower < upper] fails, yet no element is divided by zero
    and the result is an array of finite values. *)
Lemma rescale_inverted_bounds_counterexample :
  ¬ (forallb np.is_finite (VmafLegacy._rescale [0.5] (1.0, 0.0)) = true →
     1.0 < 0.0).
Proof. intros H. by specialize (H eq_refl). Qed.

(** C10 (amended).  The division of [_rescale] is unguarded and never
    raises.  With [lower = upper] every element is divided by zero, as 0/0,
    and the result is an array of [nan] of the length of the input.  Under
    [lower < upper] the division by zero is never reached and the result
    is finite; under [upper < lower] too the divisor is not zero, and every
    value maps to 1.  A non-finite element appears exactly for equal bounds
    on a non-empty sequence. *)
Theorem rescale_division_by_zero (vals : list Q) (lower upper : Q) :
  (lower == upper →
     VmafLegacy._rescale vals (lower, upper) = (λ _, np.nan) <$> vals)
  ∧ (lower < upper →
     VmafLegacy._rescale vals (lower, upper)
     = np.finite <$> (spec_rescale1 lower upper <$> vals))
  ∧ (upper < lower →
     VmafLegacy._rescale vals (lower, upper)
     = np.finite <$> (spec_rescale1 lower upper <$> vals)
     ∧ Forall (λ v, spec_rescale1 lower upper v == 1) vals)
  ∧ (Exists (λ x, np.is_finite x = false)
       (VmafLegacy._rescale vals (lower, upper)) ↔
     lower == upper ∧ vals ≠ [])
  ∧ length (VmafLegacy._rescale vals (lower, upper)) = length vals.
Proof.
  split; [by apply rescale_equal_bounds|]. split; [|split; [|split]].
  - intros Hlt. apply rescale_nonzero. lra.
  - intros Hinv. split; [apply rescale_nonzero; lra|].
    apply Forall_true. intros v. unfold spec_rescale1.
    rewrite (clip1_inverted lower upper v) by lra.
    field. lra.
  - destruct (Qeq_dec lower upper) as [Heq|Hne].
    + rewrite rescale_equal_bounds by done. split.
      * intros Hex. split; [done|]. intros ->. by apply Exists_nil in Hex.
      * intros [_ Hne]. destruct vals as [|v vals]; [done|].
        by apply Exists_cons_hd.
    + rewrite rescale_nonzero by done. split.
      * intros Hex. exfalso. apply Exists_exists in Hex as (x & Hx & Hfin).
        apply list_elem_of_fmap in Hx as (q & -> & _). discriminate.
      * by intros [? _].
  - unfold VmafLegacy._rescale, np.div_scalar, np.sub_scalar, np.clip.
    by rewrite !length_fmap.
Qed.

Lemma rescale_division_by_zero_witness :
  VmafLegacy._rescale [0.5; 3] (1.0, 1.0) = (λ _, np.nan) <$> [0.5; 3]
  ∧ VmafLegacy._rescale [0.5] (0.4, 1.0)
    = np.finite <$> (spec_rescale1 0.4 1.0 <$> [0.5])
  ∧ Forall (λ v, spec_rescale1 1.0 0.0 v == 1) [0.5; 3].
Proof.
  split; [|split].
  - destruct (rescale_division_by_zero [0.5; 3] 1.0 1.0) as (Heq & _).
    apply Heq. reflexivity.
  - destruct (rescale_division_by_zero [0.5] 0.4 1.0) as (_ & Hlt & _).
    apply Hlt. reflexivity.
  - destruct (rescale_division_by_zero [0.5; 3] 1.0 0.0) as (_ & _ & Hinv & _).
    apply Hinv. reflexivity.
Defined.

(** ** Transform, clip and prediction of VmafQualityRunner *)

Lemma zip_with_fmap_same {A B C D} (h : B → C → D) (f : A → B) (g : A → C)
    (l : list A) :
  zip_with h (f <$> l) (g <$> l) = (λ y, h (f y) (g y)) <$> l.
Proof. induction l as [|y l IH]; [done|]. cbn. by rewrite IH. Qed.

Lemma zip_with_fmap_self {A B C} (h : B → A → C) (f : A → B) (l : list A) :
  zip_with h (f <$> l) l = (λ y, h (f y) y) <$> l.
Proof. induction l as [|y l IH]; [done|]. cbn. by rewrite IH. Qed.

Lemma zeros_like_fmap (l : list Q) : np.zeros_like l = (λ _, 0) <$> l.
Proof.
  unfold np.zeros_like. induction l as [|y l IH]; [done|]. cbn. by rewrite IH.
Qed.

Lemma add_scalar_fmap (f : Q → Q) (c : Q) (l : list Q) :
  np.add_scalar (f <$> l) c = (λ y, f y + c) <$> l.
Proof. unfold np.add_scalar. by rewrite <- list_fmap_compose. Qed.

Lemma add_scaled_fmap (f : Q → Q) (c : Q) (l : list Q) :
  np.add (f <$> l) (np.scalar_mul c l) = (λ y, f y + c * y) <$> l.
Proof. unfold np.add, np.scalar_mul. by rewrite zip_with_fmap_same. Qed.

Lemma add_scaled_square_fmap (f : Q → Q) (c : Q) (l : list Q) :
  np.add (f <$> l) (np.mul (np.scalar_mul c l) l)
  = (λ y, f y + c * y * y) <$> l.
Proof.
  unfold np.add, np.mul, np.scalar_mul.
  by rewrite zip_with_fmap_self, zip_with_fmap_same.
Qed.

Lemma minimum_fmap (f : Q → Q) (l : list Q) :
  np.minimum (f <$> l) l = (λ y, Qmin (f y) y) <$> l.
Proof.
  apply zip_with_fmap_self.
Qed.

Lemma maximum_fmap (f : Q → Q) (l : list Q) :
  np.maximum (f <$> l) l = (λ y, Qmax (f y) y) <$> l.
Proof.
  apply zip_with_fmap_self.
Qed.

Lemma Qlist_eq_fmap (f g : Q → Q) (l : list Q) :
  (∀ y, f y == g y) → Qlist_eq (f <$> l) (g <$> l).
Proof.
  intros Hfg. unfold Qlist_eq.
  induction l as [|y l IH]; constructor; [apply Hfg|apply IH].
Qed.

Lemma eq_str_true (v : value) (s : string) :
  eq_str v s = true ↔ v = VStr s.
Proof.
  destruct v; cbn; try (split; [done|discriminate]).
  rewrite bool_decide_eq_true. split; [by intros ->|by intros [= ->]].
Qed.

Lemma spec_flag_set_eq_str (d : gmap string value) (k : string) :
  spec_flag_set d k
  = match d !! k with Some v => eq_str v "true" | None => false end.
Proof.
  unfold spec_flag_set. destruct (d !! k) as [v|]; [|done].
  destruct (eq_str v "true") eqn:E.
  - apply eq_str_true in E. by subst.
  - destruct v as [| | |s]; try done.
    cbn in E. apply bool_decide_eq_false in E.
    repeat (destruct s as [|[[] [] [] [] [] [] [] []] s]; try done).
Qed.

(** The transform with a declared specification, in closed form. *)
Lemma transform_score_declared (model : TrainTestModel)
    (d : gmap string value) (p0 p1 p2 : Q) (ys : list Q) :
  score_transform model = Some d →
  spec_coefficient d "p0" = Ok p0 →
  spec_coefficient d "p1" = Ok p1 →
  spec_coefficient d "p2" = Ok p2 →
  ∃ y_out, Vmaf.transform_score model ys = Ok y_out
    ∧ Qlist_eq y_out
        (spec_transform1 p0 p1 p2 (spec_flag_set d "out_lte_in")
           (spec_flag_set d "out_gte_in") <$> ys).
Proof.
  intros Hd H0 H1 H2. unfold Vmaf.transform_score. rewrite Hd.
  rewrite !spec_flag_set_eq_str. unfold spec_coefficient in *.
  rewrite zeros_like_fmap.
  destruct (d !! "p0") as [v0|]; [rewrite H0|]; cbn;
    rewrite ?add_scalar_fmap;
  (destruct (d !! "p1") as [v1|]; [rewrite H1|]; cbn;
    rewrite ?add_scaled_fmap);
  (destruct (d !! "p2") as [v2|]; [rewrite H2|]; cbn;
    rewrite ?add_scaled_square_fmap);
  (destruct (d !! "out_lte_in") as [vl|];
    [destruct (eq_str vl "true")|]; rewrite ?minimum_fmap);
  (destruct (d !! "out_gte_in") as [vg|];
    [destruct (eq_str vg "true")|]; rewrite ?maximum_fmap);
  (eexists; split; [reflexivity|]);
  apply Qlist_eq_fmap; intros y; unfold spec_transform1;
  simplify_eq;
  repeat first [apply Q.max_compat | apply Q.min_compat | reflexivity];
  ring.
Qed.

(** C2.  Without a declared transform specification the transform step
    returns its input; with one it computes [p0 + p1*y + p2*y^2]
    elementwise, a missing coefficient counting as 0, then clamps the output
    to at most the input when [out_lte_in] is set and to at least the input
    when [out_gte_in] is set (both may be set).  With [p0=1, p1=1, p2=0.5]
    the input 2 gives 5, and 2 when [out_lte_in] is set as well. *)
Theorem transform_score_spec (model : TrainTestModel) (ys : list Q) :
  (score_transform model = None → Vmaf.transform_score model ys = Ok ys)
  ∧ (∀ d p0 p1 p2,
       score_transform model = Some d →
       spec_coefficient d "p0" = Ok p0 →
       spec_coefficient d "p1" = Ok p1 →
       spec_coefficient d "p2" = Ok p2 →
       ∃ y_out, Vmaf.transform_score model ys = Ok y_out
         ∧ Qlist_eq y_out
             (spec_transform1 p0 p1 p2 (spec_flag_set d "out_lte_in")
                (spec_flag_set d "out_gte_in") <$> ys))
  ∧ (∃ y_out,
       Vmaf.transform_score
         (Vmaf.set_transform_score bare_model
            {[ "p0" := VNum 1; "p1" := VNum 1; "p2" := VNum 0.5 ]}) [2]
       = Ok y_out ∧ Qlist_eq y_out [5])
  ∧ (∃ y_out,
       Vmaf.transform_score
         (Vmaf.set_transform_score bare_model
            {[ "p0" := VNum 1; "p1" := VNum 1; "p2" := VNum 0.5;
               "out_lte_in" := VStr "true" ]}) [2]
       = Ok y_out ∧ Qlist_eq y_out [2]).
Proof.
  split; [|split; [|split]].
  - intros Hd. unfold Vmaf.transform_score. by rewrite Hd.
  - intros d p0 p1 p2. apply transform_score_declared.
  - eexists. split; [vm_compute; reflexivity|].
    repeat constructor.
  - eexists. split; [vm_compute; reflexivity|].
    repeat constructor.
Qed.

Lemma transform_score_spec_witness :
  Vmaf.transform_score bare_model [2; 3] = Ok [2; 3]
  ∧ ∃ y_out,
      Vmaf.transform_score
        (Vmaf.set_transform_score bare_model
           {[ "p1" := VNum 2; "out_gte_in" := VStr "true" ]}) [3; -1]
      = Ok y_out
      ∧ Qlist_eq y_out
          (spec_transform1 0 2 0
             (spec_flag_set {[ "p1" := VNum 2; "out_gte_in" := VStr "true" ]}
                "out_lte_in")
             (spec_flag_set {[ "p1" := VNum 2; "out_gte_in" := VStr "true" ]}
                "out_gte_in") <$> [3; -1]).
Proof.
  split.
  - apply (transform_score_spec bare_model [2; 3]). reflexivity.
  - destruct (transform_score_spec
                (Vmaf.set_transform_score bare_model
                   {[ "p1" := VNum 2; "out_gte_in" := VStr "true" ]}) [3; -1])
      as (_ & Hdeclared & _).
    apply (Hdeclared {[ "p1" := VNum 2; "out_gte_in" := VStr "true" ]} 0 2 0);
      reflexivity.
Defined.

Lemma eq_str_false (v : value) (s : string) :
  v ≠ VStr s → eq_str v s = false.
Proof.
  intros Hv. apply not_true_iff_false. by rewrite eq_str_true.
Qed.

(** C9.  A rectification key that is present with a value other than the
    string ['true'] (the boolean [True] included) triggers no clamp: the
    transform step returns what it returns for the specification without
    that key. *)
Theorem rectification_only_on_true_string (model : TrainTestModel)
    (d : gmap string value) (v : value) (ys : list Q) :
  score_transform model = Some d →
  v ≠ VStr "true" →
  (d !! "out_lte_in" = Some v →
     Vmaf.transform_score model ys
     = Vmaf.transform_score
         (Vmaf.set_transform_score model (delete "out_lte_in" d)) ys)
  ∧ (d !! "out_gte_in" = Some v →
     Vmaf.transform_score model ys
     = Vmaf.transform_score
         (Vmaf.set_transform_score model (delete "out_gte_in" d)) ys)
  ∧ VBool true ≠ VStr "true".
Proof.
  intros Hd Hv. split; [|split; [|done]].
  - intros Hk. unfold Vmaf.transform_score. rewrite Hd. cbn [score_transform Vmaf.set_transform_score].
    rewrite lookup_delete_eq, !lookup_delete_ne by done.
    rewrite Hk, (eq_str_false v) by done. done.
  - intros Hk. unfold Vmaf.transform_score. rewrite Hd. cbn [score_transform Vmaf.set_transform_score].
    rewrite lookup_delete_eq, !lookup_delete_ne by done.
    rewrite Hk, (eq_str_false v) by done. done.
Qed.

Lemma rectification_only_on_true_string_witness :
  Vmaf.transform_score
    (Vmaf.set_transform_score bare_model
       {[ "p0" := VNum 1; "p1" := VNum 1; "p2" := VNum 0.5;
          "out_lte_in" := VBool true ]}) [2]
  = Vmaf.transform_score
      (Vmaf.set_transform_score
         (Vmaf.set_transform_score bare_model
            {[ "p0" := VNum 1; "p1" := VNum 1; "p2" := VNum 0.5;
               "out_lte_in" := VBool true ]})
         (delete "out_lte_in"
            {[ "p0" := VNum 1; "p1" := VNum 1; "p2" := VNum 0.5;
               "out_lte_in" := VBool true ]})) [2].
Proof.
  destruct (rectification_only_on_true_string
              (Vmaf.set_transform_score bare_model
                 {[ "p0" := VNum 1; "p1" := VNum 1; "p2" := VNum 0.5;
                    "out_lte_in" := VBool true ]})
              {[ "p0" := VNum 1; "p1" := VNum 1; "p2" := VNum 0.5;
                 "out_lte_in" := VBool true ]}
              (VBool true) [2]) as (Hlte & _).
  - reflexivity.
  - discriminate.
  - apply Hlte. vm_compute. reflexivity.
Defined.

Lemma spec_option_on_is_True (kwargs : gmap string value) (k : string) :
  spec_option_on kwargs k
  = match kwargs !! k with Some v => is_True v | None => false end.
Proof.
  unfold spec_option_on. by destruct (kwargs !! k) as [[|[]| |]|].
Qed.

(** C3.  [predict_with_model] of VmafQualityRunner calls the model's
    [predict], applies the transform step only when the enable-transform
    flag is set (without the flag: no transform), then applies the clip
    step unless the disable-clip flag is set.  The clip step clips
    elementwise into the declared bounds and does nothing when the model
    declares none; bounds (0, 100) turn [-5, 50, 150] into [0, 50, 100]. *)
Theorem predict_with_model_spec (model : TrainTestModel)
    (xs : list (list Q)) (kwargs : gmap string value) :
  Vmaf.predict_with_model VmafQualityRunner model xs kwargs
  = (ys ← (if spec_option_on kwargs "enable_transform_score"
           then Vmaf.transform_score model (predict model xs)
           else Ok (predict model xs));
     Ok (if spec_option_on kwargs "disable_clip_score" then ys
         else Vmaf.clip_score model ys))
  ∧ Vmaf.predict_with_model VmafQualityRunner model xs ∅
    = Ok (Vmaf.clip_score model (predict model xs))
  ∧ (∀ ys, score_clip model = None → Vmaf.clip_score model ys = ys)
  ∧ (∀ ys lower upper,
       score_clip model = Some (lower, upper) →
       Vmaf.clip_score model ys = (λ y, Qmin (Qmax y lower) upper) <$> ys
       ∧ (lower <= upper →
          Forall (λ y, lower <= y ∧ y <= upper) (Vmaf.clip_score model ys)))
  ∧ Vmaf.clip_score (Vmaf.set_clip_score bare_model (0, 100)) [-5; 50; 150]
    = [0; 50; 100].
Proof.
  split; [|split; [|split; [|split]]].
  - unfold Vmaf.predict_with_model, Vmaf._do_transform_score.
    rewrite !spec_option_on_is_True.
    destruct (kwargs !! "enable_transform_score") as [ve|];
      destruct (kwargs !! "disable_clip_score") as [vd|]; done.
  - done.
  - intros ys Hc. unfold Vmaf.clip_score. by rewrite Hc.
  - intros ys lower upper Hc. unfold Vmaf.clip_score. rewrite Hc.
    split; [done|]. intros Hle. unfold np.clip.
    apply Forall_fmap, Forall_true. intros y. by apply clip1_bounds.
  - reflexivity.
Qed.

Lemma predict_with_model_spec_witness :
  Vmaf.clip_score bare_model [-5; 50; 150] = [-5; 50; 150]
  ∧ Forall (λ y, 0 <= y ∧ y <= 100)
      (Vmaf.clip_score (Vmaf.set_clip_score bare_model (0, 100))
         [-5; 50; 150]).
Proof.
  split.
  - destruct (predict_with_model_spec bare_model [] ∅) as (_ & _ & Hnone & _).
    apply Hnone. reflexivity.
  - destruct (predict_with_model_spec
                (Vmaf.set_clip_score bare_model (0, 100)) [] ∅)
      as (_ & _ & _ & Hsome & _).
    apply (Hsome [-5; 50; 150] 0 100); [reflexivity|discriminate].
Defined.

(** C5.  The phone variant decides to transform whatever the
    configuration, and otherwise predicts as the general path does with the
    transform enabled; its argument validation fails for every
    configuration that contains the enable-transform key, whatever the
    value under it (and passes, the inherited check passing, when the key
    is absent or no configuration is given). *)
Theorem phone_variant_spec (model : TrainTestModel) (xs : list (list Q))
    (kwargs : gmap string value) (super_assert_args : result unit)
    (optional_dict : gmap string value) :
  Vmaf._do_transform_score VmafPhoneQualityRunner kwargs = true
  ∧ Vmaf.predict_with_model VmafPhoneQualityRunner model xs kwargs
    = Vmaf.predict_with_model VmafQualityRunner model xs
        (<["enable_transform_score" := VBool true]> kwargs)
  ∧ (is_Some (optional_dict !! "enable_transform_score") →
       fails (VmafPhone._assert_args super_assert_args (Some optional_dict))
       ∧ VmafPhone._assert_args (Ok tt) (Some optional_dict)
         = Raise AssertionError)
  ∧ (optional_dict !! "enable_transform_score" = None →
       VmafPhone._assert_args (Ok tt) (Some optional_dict) = Ok tt)
  ∧ VmafPhone._assert_args (Ok tt) None = Ok tt.
Proof.
  split; [done|]. split; [|split; [|split; [|done]]].
  - unfold Vmaf.predict_with_model, Vmaf._do_transform_score.
    rewrite lookup_insert_eq, lookup_insert_ne by done. done.
  - intros Hin.
    assert (Hc : contains "enable_transform_score" optional_dict = true)
      by by apply bool_decide_eq_true.
    unfold VmafPhone._assert_args. rewrite Hc. split; [|done].
    destruct super_assert_args as [[]|e]; by eexists.
  - intros Hnone. unfold VmafPhone._assert_args, contains.
    rewrite Hnone. done.
Qed.

Lemma phone_variant_spec_witness :
  VmafPhone._assert_args (Ok tt)
    (Some {[ "enable_transform_score" := VBool false ]})
  = Raise AssertionError
  ∧ VmafPhone._assert_args (Ok tt)
      (Some {[ "disable_clip_score" := VBool true ]})
    = Ok tt.
Proof.
  split.
  - destruct (phone_variant_spec bare_model [] ∅ (Ok tt)
                {[ "enable_transform_score" := VBool false ]})
      as (_ & _ & Hpresent & _).
    apply Hpresent. by eexists.
  - destruct (phone_variant_spec bare_model [] ∅ (Ok tt)
                {[ "disable_clip_score" := VBool true ]})
      as (_ & _ & _ & Habsent & _).
    apply Habsent. vm_compute. reflexivity.
Defined.

(** ** The plain-text log of PsnrQualityRunner *)

Lemma result_cases {A} (r : result A) : succeeds r ∨ fails r.
Proof. destruct r as [a|e]; [left|right]; by eexists. Qed.

Lemma scan_line_record (st : list Q * N) (line : string) :
  Psnr.scan_line st line
  = match re.match_psnr line with
    | Some (g1, g2) => scan_record st (py_int g1, g2)
    | None => Ok st
    end.
Proof.
  destruct st as [scores counter]. unfold Psnr.scan_line, scan_record.
  by destruct (re.match_psnr line) as [[g1 g2]|].
Qed.

Lemma psnr_loop_records (log_file : list string) (st : list Q * N) :
  for_each Psnr.scan_line st log_file
  = for_each scan_record st (matched_records log_file).
Proof.
  revert st. induction log_file as [|line log_file IH]; intros st; [done|].
  cbn [for_each]. rewrite scan_line_record. unfold matched_records.
  cbn [omap list_omap].
  destruct (re.match_psnr line) as [[g1 g2]|].
  - cbn [for_each].
    destruct (scan_record st (py_int g1, g2)) as [st'|e]; [|done].
    apply IH.
  - apply IH.
Qed.

Lemma scan_record_ok (scores : list Q) (counter idx : N) (tok : string)
    (st' : list Q * N) :
  scan_record (scores, counter) (idx, tok) = Ok st' ↔
  idx = counter ∧ ∃ v, py_float tok = Ok v
                       ∧ st' = (scores ++ [v], (counter + 1)%N).
Proof.
  unfold scan_record. destruct (N.eqb_spec idx counter) as [->|Hne].
  - cbn. destruct (py_float tok) as [v|e]; cbn.
    + split.
      * intros [= <-]. eauto.
      * intros (_ & v' & [= <-] & ->). done.
    + split; [done|]. by intros (_ & v' & ? & _).
  - cbn. split; [done|]. by intros [? _].
Qed.

Lemma scan_records_ok (recs : list (N * string)) (scores : list Q)
    (counter : N) (st' : list Q * N) :
  for_each scan_record (scores, counter) recs = Ok st' ↔
  fst <$> recs = run_from counter (length recs)
  ∧ ∃ vals, mapM py_float (snd <$> recs) = Ok vals
            ∧ st' = (scores ++ vals, (counter + N.of_nat (length recs))%N).
Proof.
  revert scores counter st'.
  induction recs as [|[idx tok] recs IH]; intros scores counter st'.
  - cbn. split.
    + intros [= <-]. split; [done|]. exists [].
      by rewrite app_nil_r, N.add_0_r.
    + intros (_ & vals & [= <-] & ->). by rewrite app_nil_r, N.add_0_r.
  - cbn [for_each fmap list_fmap length run_from fst snd].
    rewrite result_mapM_cons. split.
    + destruct (scan_record (scores, counter) (idx, tok)) as [st1|e] eqn:E1;
        [|done].
      apply scan_record_ok in E1 as (-> & v & Hv & ->).
      cbn. intros (Hidx & vals & Hvals & ->)%IH.
      split; [by rewrite Hidx|].
      exists (v :: vals). rewrite Hv, Hvals. split; [done|].
      rewrite <- app_assoc, Nat2N.inj_succ. f_equal. lia.
    + intros (Hidx & vals & Hvals & ->).
      injection Hidx as -> Hidx.
      destruct (py_float tok) as [v|e] eqn:Hv; [|done].
      cbn in Hvals.
      destruct (mapM py_float (snd <$> recs)) as [vals'|e] eqn:Hvals';
        [|done].
      injection Hvals as <-.
      assert (E1 : scan_record (scores, counter) (counter, tok)
                   = Ok (scores ++ [v], (counter + 1)%N)).
      { apply scan_record_ok. eauto. }
      rewrite E1. cbn. apply IH. split; [done|].
      exists vals'. split; [done|].
      rewrite <- app_assoc, Nat2N.inj_succ. f_equal. lia.
Qed.

Lemma psnr_get_quality_scores_ok (log_file : list string)
    (r : gmap string (list Q)) :
  Psnr._get_quality_scores log_file = Ok r ↔
  matched_records log_file ≠ []
  ∧ contiguous_from_zero (fst <$> matched_records log_file)
  ∧ ∃ vals, record_values log_file = Ok vals
            ∧ r = {[ "PSNR_scores"%string := vals ]}.
Proof.
  unfold Psnr._get_quality_scores, contiguous_from_zero, record_values.
  rewrite psnr_loop_records, length_fmap.
  set (recs := matched_records log_file).
  destruct (for_each scan_record ([], 0%N) recs) as [[scores c]|e] eqn:E.
  - apply scan_records_ok in E as (Hidx & vals & Hvals & [= -> ->]).
    assert (Hlen : length vals = length recs).
    { clear Hidx. revert vals Hvals.
      induction recs as [|[i t] recs IH]; intros vals.
      - by intros [= <-].
      - cbn [fmap list_fmap snd]. rewrite result_mapM_cons.
        destruct (py_float t); [|done].
        destruct (mapM py_float (snd <$> recs)) as [vs|]; [|done].
        intros [= <-]. cbn. f_equal. by apply IH. }
    cbn [app]. destruct vals as [|v vals].
    + apply eq_sym, nil_length_inv in Hlen. cbn. split; [done|].
      by intros [? _].
    + cbn. split.
      * intros [= <-]. split; [by intros Hnil; rewrite Hnil in Hlen|].
        split; [done|]. eauto.
      * intros (_ & _ & vals' & Hvals' & ->).
        rewrite Hvals in Hvals'. by injection Hvals' as <-.
  - cbn. split; [done|].
    intros (_ & Hidx & vals & Hvals & _).
    assert (for_each scan_record ([], 0%N) recs
            = Ok ([] ++ vals, (0 + N.of_nat (length recs))%N)) as E'.
    { apply scan_records_ok. eauto. }
    rewrite E in E'. discriminate.
Qed.

(** C6 (as stated), refuted: the single line [psnr: 0 1.2.3] matches, its
    index run is 0, yet the parse fails on the value token. *)
Lemma psnr_parse_counterexample :
  ¬ (succeeds (Psnr._get_quality_scores ["psnr: 0 1.2.3"%string]) ↔
     contiguous_from_zero (fst <$> matched_records ["psnr: 0 1.2.3"%string])
     ∧ matched_records ["psnr: 0 1.2.3"%string] ≠ []).
Proof.
  intros [_ Hsucc].
  destruct Hsucc as [r Hr]; [by split|]. vm_compute in Hr. discriminate.
Qed.

(** C6 (amended).  The direct log parser succeeds exactly when at least one
    line matches, the matched lines carry the frame indices 0, 1, 2, ... in
    that order, and every matched value token converts to a number; it
    then returns the values in line order under ["PSNR_scores"].  A gap,
    repeat or out-of-order index is fatal and so is a log without a
    matching line.  The lines [psnr: 0 30.1], [psnr: 1 31.4] yield
    [30.1, 31.4]; indices 0 then 2 fail. *)
Theorem psnr_parse_spec (log_file : list string) :
  (succeeds (Psnr._get_quality_scores log_file) ↔
     matched_records log_file ≠ []
     ∧ contiguous_from_zero (fst <$> matched_records log_file)
     ∧ succeeds (record_values log_file))
  ∧ (∀ r, Psnr._get_quality_scores log_file = Ok r →
       ∃ vals, record_values log_file = Ok vals
               ∧ r = {[ get_scores_key PsnrQualityRunner := vals ]})
  ∧ (¬ contiguous_from_zero (fst <$> matched_records log_file) →
       fails (Psnr._get_quality_scores log_file))
  ∧ (matched_records log_file = [] →
       Psnr._get_quality_scores log_file = Raise AssertionError)
  ∧ Psnr._get_quality_scores ["psnr: 0 30.1"; "psnr: 1 31.4"]%string
    = Ok {[ "PSNR_scores"%string := [30.1; 31.4] ]}
  ∧ Psnr._get_quality_scores ["psnr: 0 30.1"; "psnr: 2 31.4"]%string
    = Raise AssertionError.
Proof.
  split; [|split; [|split; [|split; [|split]]]].
  - split.
    + intros [r Hr]. apply psnr_get_quality_scores_ok in Hr
        as (Hne & Hidx & vals & Hvals & _).
      repeat split; [done..|]. by exists vals.
    + intros (Hne & Hidx & vals & Hvals). eexists.
      apply psnr_get_quality_scores_ok. eauto 6.
  - intros r Hr. apply psnr_get_quality_scores_ok in Hr
      as (_ & _ & vals & Hvals & ->). eauto.
  - intros Hgap.
    destruct (result_cases (Psnr._get_quality_scores log_file))
      as [[r Hr]|Hf]; [|done].
    by apply psnr_get_quality_scores_ok in Hr as (_ & Hidx & _).
  - intros Hnone. unfold Psnr._get_quality_scores.
    rewrite psnr_loop_records, Hnone. done.
  - apply psnr_get_quality_scores_ok. repeat split; [done|by eexists].
  - by vm_compute.
Qed.

Lemma psnr_parse_spec_witness :
  ∃ vals, record_values ["junk"; "psnr: 0 -7.25 dB"; "psnr: 1 40"]%string
          = Ok vals
          ∧ ({[ "PSNR_scores"%string := [-7.25; 40] ]} : gmap string (list Q))
            = {[ get_scores_key PsnrQualityRunner := vals ]}.
Proof.
  destruct (psnr_parse_spec ["junk"; "psnr: 0 -7.25 dB"; "psnr: 1 40"]%string)
    as (_ & Hok & _).
  apply Hok.
  apply psnr_get_quality_scores_ok. repeat split; [done|by eexists].
Defined.

(** ** The structured log of VmafossExecQualityRunner *)

Lemma for_each_fails {S A} (body : S → A → result S) (x : A) (xs : list A)
    (st : S) :
  x ∈ xs → (∀ st', fails (body st' x)) → fails (for_each body st xs).
Proof.
  intros Hx Hbody. revert st.
  induction xs as [|y xs IH]; intros st; [by apply elem_of_nil in Hx|].
  cbn [for_each]. destruct (body st y) as [st'|e] eqn:E.
  - apply elem_of_cons in Hx as [->|Hx]; [|by apply IH].
    destruct (Hbody st) as [e He]. congruence.
  - by eexists.
Qed.

Lemma zip_with_zip_with_r {A B} (g h : A → B → A) (a : list A) (b : list B) :
  zip_with g (zip_with h a b) b = zip_with (λ x y, g (h x y) y) a b.
Proof.
  revert b. induction a as [|x a IH]; intros [|y b]; [done..|].
  cbn. by rewrite IH.
Qed.

Lemma zip_with_fmap_const_l {A B C} (g : A → B → C) (x : A) (b : list B) :
  zip_with g ((λ _, x) <$> b) b = g x <$> b.
Proof. induction b as [|y b IH]; [done|]. cbn. by rewrite IH. Qed.

Ltac run_result := cbn [mbind mret result_bind result_ret bind].

Section vmafossexec.

Variable float : string → result Q.

Import VmafossExec.

Lemma attribute_values_cons k frame frames :
  attribute_values float k (frame :: frames)
  = contribution float frame k ++ attribute_values float k frames.
Proof.
  unfold contribution, attribute_values. cbn.
  destruct (frame !! k) as [s|]; [|done]. by destruct (float s).
Qed.

Lemma contribution_Some frame k s v :
  frame !! k = Some s → float s = Ok v → contribution float frame k = [v].
Proof.
  intros Hs Hv. unfold contribution, attribute_values. cbn.
  by rewrite Hs, Hv.
Qed.

Lemma contribution_None frame k :
  frame !! k = None → contribution float frame k = [].
Proof.
  intros Hs. unfold contribution, attribute_values. cbn. by rewrite Hs.
Qed.

Lemma scan_features_ok frame (feats : list string) (pre suf : list (list Q)) :
  numeric_frame float frame →
  (∀ f, f ∈ feats → f ∈ FEATURES) →
  length suf = length feats →
  for_each (scan_feature float frame) (pre ++ suf)
    (zip (seq (length pre) (length feats)) feats)
  = Ok (pre ++ zip_with (λ l f, l ++ contribution float frame f) suf feats).
Proof.
  intros Hnum. revert pre suf.
  induction feats as [|f feats IH]; intros pre suf Hin Hlen.
  - by destruct suf.
  - destruct suf as [|l suf]; [done|]. injection Hlen as Hlen.
    assert (Hstep : scan_feature float frame (pre ++ l :: suf) (length pre, f)
                    = Ok (pre ++ (l ++ contribution float frame f) :: suf)).
    { unfold scan_feature.
      destruct (frame !! f) as [s|] eqn:Hs;
        [|by rewrite contribution_None, app_nil_r].
      destruct (Hnum f s) as [v Hv]; [|done|].
      { apply elem_of_cons. right. apply Hin, elem_of_cons. by left. }
      rewrite Hv, (contribution_Some frame f s v) by done.
      run_result. f_equal.
      rewrite <- (Nat.add_0_r (length pre)) at 1.
      by rewrite alter_app_r. }
    cbn [length seq zip zip_with for_each]. rewrite Hstep. run_result.
    specialize (IH (pre ++ [l ++ contribution float frame f]) suf).
    rewrite length_app, Nat.add_1_r, <- !app_assoc in IH. cbn in IH.
    apply IH; [|done]. intros f' Hf'. apply Hin, elem_of_cons. by right.
Qed.

Lemma scan_frame_ok frame (scores : list Q) (fs : list (list Q)) :
  numeric_frame float frame →
  is_Some (frame !! "vmaf"%string) →
  length fs = length FEATURES →
  scan_frame float (scores, fs) frame
  = Ok (scores ++ contribution float frame "vmaf",
        zip_with (λ l f, l ++ contribution float frame f) fs FEATURES).
Proof.
  intros Hnum [s Hs] Hlen. unfold scan_frame, getitem.
  rewrite Hs. run_result.
  destruct (Hnum "vmaf"%string s) as [v Hv]; [by apply elem_of_cons; left|done|].
  rewrite Hv. run_result.
  pose proof (scan_features_ok frame FEATURES [] fs Hnum) as Hfeat.
  cbn [app length] in Hfeat. unfold enumerate.
  rewrite Hfeat by done. run_result.
  by rewrite (contribution_Some frame "vmaf" s v).
Qed.

Lemma scan_frames_ok (frames : list (gmap string string))
    (scores : list Q) (fs : list (list Q)) :
  Forall (numeric_frame float) frames →
  Forall (λ frame, is_Some (frame !! "vmaf"%string)) frames →
  length fs = length FEATURES →
  for_each (scan_frame float) (scores, fs) frames
  = Ok (scores ++ attribute_values float "vmaf" frames,
        zip_with (λ l f, l ++ attribute_values float f frames) fs FEATURES).
Proof.
  intros Hnum Hvmaf. revert scores fs.
  induction frames as [|frame frames IH]; intros scores fs Hlen.
  - cbn [for_each]. rewrite app_nil_r. f_equal. f_equal.
    clear -Hlen. revert Hlen. generalize FEATURES as feats.
    induction fs as [|l fs IHfs]; intros [|f feats] Hlen; [done..|].
    cbn. injection Hlen as Hlen.
    rewrite <- IHfs by done. by rewrite app_nil_r.
  - apply Forall_cons in Hnum as [Hnum1 Hnum].
    apply Forall_cons in Hvmaf as [Hvmaf1 Hvmaf].
    cbn [for_each]. rewrite scan_frame_ok by done. run_result.
    rewrite IH; [|done..|].
    + rewrite zip_with_zip_with_r, <- app_assoc,
        <- attribute_values_cons.
      do 2 f_equal. apply zip_with_ext; [|done..].
      intros l f. by rewrite <- app_assoc, <- attribute_values_cons.
    + rewrite length_zip_with. lia.
Qed.

Lemma publish_features_ok frames (feats : list string)
    (pre : list (list Q)) (m : gmap string (list Q)) :
  foldl (publish_feature
           (pre ++ ((λ f, attribute_values float f frames) <$> feats))) m
    (zip (seq (length pre) (length feats)) feats)
  = foldl (publish float frames) m feats.
Proof.
  revert pre m. induction feats as [|f feats IH]; intros pre m; [done|].
  cbn [length seq zip zip_with foldl fmap list_fmap].
  assert (Hstep :
    publish_feature
      (pre ++ attribute_values float f frames
           :: ((λ f, attribute_values float f frames) <$> feats)) m
      (length pre, f) = publish float frames m f).
  { unfold publish_feature, publish.
    rewrite lookup_app_r, Nat.sub_diag by lia. cbn.
    by destruct (attribute_values float f frames). }
  rewrite Hstep.
  specialize (IH (pre ++ [attribute_values float f frames]) (publish float frames m f)).
  rewrite length_app, Nat.add_1_r, <- app_assoc in IH. apply IH.
Qed.

Lemma publish_lookup_other frames (feats : list string)
    (m : gmap string (list Q)) (k : string) :
  k ∉ get_feature_scores_key <$> feats →
  foldl (publish float frames) m feats !! k = m !! k.
Proof.
  revert m. induction feats as [|f feats IH]; intros m Hk; [done|].
  cbn in Hk. apply not_elem_of_cons in Hk as [Hkf Hk].
  cbn [foldl]. rewrite IH by done. unfold publish.
  destruct (attribute_values float f frames); [done|].
  by rewrite lookup_insert_ne.
Qed.

Lemma publish_lookup frames (feats : list string)
    (m : gmap string (list Q)) (f : string) :
  NoDup (get_feature_scores_key <$> feats) →
  f ∈ feats →
  foldl (publish float frames) m feats !! get_feature_scores_key f
  = match attribute_values float f frames with
    | [] => m !! get_feature_scores_key f
    | l => Some l
    end.
Proof.
  revert m. induction feats as [|g feats IH]; intros m Hnd Hf;
    [by apply elem_of_nil in Hf|].
  cbn in Hnd. apply NoDup_cons in Hnd as [Hg Hnd].
  cbn [foldl]. apply elem_of_cons in Hf as [->|Hf].
  - rewrite publish_lookup_other by done. unfold publish.
    destruct (attribute_values float g frames); [done|].
    by rewrite lookup_insert_eq.
  - rewrite IH by done.
    destruct (attribute_values float f frames); [|done].
    unfold publish. destruct (attribute_values float g frames); [done|].
    rewrite lookup_insert_ne; [done|]. intros Heq. apply Hg.
    rewrite Heq. by apply list_elem_of_fmap_2.
Qed.

Lemma vmafossexec_keys_NoDup :
  NoDup (get_scores_key VmafossExecQualityRunner
           :: (get_feature_scores_key <$> FEATURES)).
Proof. apply (bool_decide_unpack _). by vm_compute. Qed.

Lemma attribute_values_length k frames :
  Forall (numeric_frame float) frames →
  k ∈ "vmaf"%string :: FEATURES →
  length (attribute_values float k frames)
  = length (filter (λ frame : gmap string string, is_Some (frame !! k)) frames).
Proof.
  intros Hnum Hk. induction frames as [|frame frames IH]; [done|].
  apply Forall_cons in Hnum as [Hnum1 Hnum].
  rewrite attribute_values_cons, length_app, IH, filter_cons by done.
  unfold contribution, attribute_values. cbn.
  destruct (frame !! k) as [s|] eqn:Hs.
  - destruct (Hnum1 k s Hk Hs) as [v Hv]. rewrite Hv.
    by rewrite decide_True by done.
  - by rewrite decide_False by (by intros [? ?]).
Qed.

Lemma vmafossexec_get_quality_scores_ok frames :
  frames ≠ [] →
  Forall (λ frame, is_Some (frame !! "vmaf"%string)) frames →
  Forall (numeric_frame float) frames →
  ∃ r, _get_quality_scores float frames = Ok r
    ∧ r !! get_scores_key VmafossExecQualityRunner
      = Some (attribute_values float "vmaf" frames)
    ∧ ∀ f, f ∈ FEATURES →
        r !! get_feature_scores_key f
        = match attribute_values float f frames with
          | [] => None
          | l => Some l
          end.
Proof.
  intros Hne Hvmaf Hnum. unfold VmafossExec._get_quality_scores.
  rewrite scan_frames_ok by (done || by rewrite length_fmap).
  rewrite zip_with_fmap_const_l. cbn [app mbind result_bind bind].
  assert (Hlen : length (attribute_values float "vmaf" frames) = length frames).
  { rewrite attribute_values_length by (done || by apply elem_of_cons; left).
    f_equal. clear -Hvmaf. induction Hvmaf as [|frame frames H1 H IH]; [done|].
    by rewrite filter_cons, decide_True, IH by done. }
  destruct (attribute_values float "vmaf" frames) as [|v vals] eqn:Hvals.
  { by destruct frames. }
  cbn [length Nat.eqb negb assert mbind result_bind bind].
  eexists. split; [reflexivity|].
  pose proof vmafossexec_keys_NoDup as [Hscores Hnd]%NoDup_cons.
  pose proof (publish_features_ok frames FEATURES []) as Hpub.
  cbn [app length] in Hpub. unfold enumerate. rewrite Hpub. split.
  - rewrite publish_lookup_other by done. by rewrite lookup_singleton_eq.
  - intros f Hf. rewrite publish_lookup by done.
    destruct (attribute_values float f frames); [|done].
    apply lookup_singleton_ne. intros Heq. apply Hscores.
    rewrite Heq. by apply list_elem_of_fmap_2.
Qed.

End vmafossexec.

(** C7.  In the structured log a frame without the [vmaf] attribute is
    fatal and so is a log without frames.  A missing sub-feature attribute
    is tolerated: when every frame carries [vmaf] and the attributes
    present are numeric, the parse returns the final scores of all frames
    and, for each declared sub-feature, the values of the frames that carry
    it, the key of a sub-feature carried by no frame being left out.  Three
    frames of which the second lacks a sub-feature give a sequence of length
    2 for it and of length 3 for the final score. *)
Theorem vmafossexec_parse_spec (float : string → result Q)
    (frames : list (gmap string string)) :
  (Exists (λ frame : gmap string string, frame !! "vmaf"%string = None) frames →
     fails (VmafossExec._get_quality_scores float frames))
  ∧ VmafossExec._get_quality_scores float [] = Raise AssertionError
  ∧ (frames ≠ [] →
     Forall (λ frame : gmap string string, is_Some (frame !! "vmaf"%string))
       frames →
     Forall (VmafossExec.numeric_frame float) frames →
     ∃ r, VmafossExec._get_quality_scores float frames = Ok r
       ∧ r !! get_scores_key VmafossExecQualityRunner
         = Some (VmafossExec.attribute_values float "vmaf" frames)
       ∧ length (VmafossExec.attribute_values float "vmaf" frames)
         = length frames
       ∧ ∀ f, f ∈ VmafossExec.FEATURES →
           length (VmafossExec.attribute_values float f frames)
           = length (filter (λ frame : gmap string string,
                               is_Some (frame !! f)) frames)
           ∧ r !! VmafossExec.get_feature_scores_key f
             = match VmafossExec.attribute_values float f frames with
               | [] => None
               | l => Some l
               end
           ∧ (Forall (λ frame : gmap string string, frame !! f = None) frames →
              r !! VmafossExec.get_feature_scores_key f = None)
           ∧ (∀ frame1 frame2 frame3,
                frames = [frame1; frame2; frame3] →
                is_Some (frame1 !! f) → frame2 !! f = None →
                is_Some (frame3 !! f) →
                ∃ l, r !! VmafossExec.get_feature_scores_key f = Some l
                     ∧ length l = 2%nat)).
Proof.
  split; [|split; [done|]].
  - intros (frame & Hin & Hnone)%Exists_exists.
    unfold VmafossExec._get_quality_scores.
    destruct (for_each_fails (VmafossExec.scan_frame float) frame frames
                ([], (λ _, []) <$> VmafossExec.FEATURES) Hin) as [e He].
    { intros [scores fs]. unfold VmafossExec.scan_frame, getitem.
      rewrite Hnone. by eexists. }
    rewrite He. by eexists.
  - intros Hne Hvmaf Hnum.
    destruct (vmafossexec_get_quality_scores_ok float frames Hne Hvmaf Hnum)
      as (r & Hr & Hscores & Hfeat).
    exists r. split; [done|]. split; [done|].
    assert (Hcount : ∀ k, k ∈ "vmaf"%string :: VmafossExec.FEATURES →
      length (VmafossExec.attribute_values float k frames)
      = length (filter (λ frame : gmap string string, is_Some (frame !! k))
                  frames))
      by (intros k Hk; by apply attribute_values_length).
    split.
    { rewrite Hcount by (by apply elem_of_cons; left). f_equal.
      clear -Hvmaf. induction Hvmaf as [|frame frames H1 H IH]; [done|].
      by rewrite filter_cons, decide_True, IH by done. }
    intros f Hf.
    assert (Hk : f ∈ "vmaf"%string :: VmafossExec.FEATURES)
      by (by apply elem_of_cons; right).
    split; [by apply Hcount|]. split; [by apply Hfeat|]. split.
    + intros Hall. rewrite Hfeat by done.
      assert (Hlen := Hcount f Hk).
      replace (filter (λ frame : gmap string string, is_Some (frame !! f))
                 frames) with (@nil (gmap string string)) in Hlen.
      { by apply nil_length_inv in Hlen as ->. }
      clear -Hall. induction Hall as [|frame frames H1 H IH]; [done|].
      rewrite filter_cons, decide_False; [done|]. rewrite H1. by intros [? ?].
    + intros frame1 frame2 frame3 -> H1 H2 H3.
      rewrite Hfeat by done. assert (Hlen := Hcount f Hk).
      rewrite !filter_cons, filter_nil in Hlen.
      rewrite decide_True, decide_False, decide_True in Hlen
        by (done || (rewrite H2; by intros [? ?])).
      destruct (VmafossExec.attribute_values float f [frame1; frame2; frame3])
        as [|v l]; [done|].
      by exists (v :: l).
Qed.

Lemma vmafossexec_parse_spec_witness :
  ∃ r,
    VmafossExec._get_quality_scores py_float
      [ {[ "vmaf" := "90.5"; "adm2" := "0.9"; "motion" := "3" ]};
        {[ "vmaf" := "80"; "motion" := "4.5" ]};
        {[ "vmaf" := "70.25"; "adm2" := "0.8" ]} ]%string
    = Ok r
    ∧ r !! "VMAFOSSEXEC_scores"%string = Some [90.5; 80; 70.25]
    ∧ r !! "VMAFOSSEXEC_adm2_scores"%string = Some [0.9; 0.8]
    ∧ r !! "VMAFOSSEXEC_motion_scores"%string = Some [3; 4.5]
    ∧ r !! "VMAFOSSEXEC_vif_scores"%string = None.
Proof.
  destruct (vmafossexec_parse_spec py_float
      [ {[ "vmaf" := "90.5"; "adm2" := "0.9"; "motion" := "3" ]};
        {[ "vmaf" := "80"; "motion" := "4.5" ]};
        {[ "vmaf" := "70.25"; "adm2" := "0.8" ]} ]%string)
    as (_ & _ & Hok).
  destruct Hok as (r & Hr & Hscores & _ & Hfeat).
  - discriminate.
  - repeat constructor; by eexists.
  - repeat constructor; intros k s Hk Hs;
      repeat (apply elem_of_cons in Hk as [->|Hk]);
      try (by apply elem_of_nil in Hk);
      vm_compute in Hs; try discriminate;
      injection Hs as <-; by eexists.
  - exists r. split; [done|]. split; [|split; [|split]].
    + etrans; [exact Hscores|]. by vm_compute.
    + destruct (Hfeat "adm2"%string) as (_ & Hl & _);
        [by apply (bool_decide_unpack _); vm_compute|].
      etrans; [exact Hl|]. by vm_compute.
    + destruct (Hfeat "motion"%string) as (_ & Hl & _);
        [by apply (bool_decide_unpack _); vm_compute|].
      etrans; [exact Hl|]. by vm_compute.
    + destruct (Hfeat "vif"%string) as (_ & Hl & _);
        [by apply (bool_decide_unpack _); vm_compute|].
      etrans; [exact Hl|]. by vm_compute.
Defined.

(** ** Single-feature passthrough *)

(** C8.  Each single-feature variant requests its one feature and returns
    a result with one entry: under the key ["{TYPE}_scores"] the sequence
    the feature result holds for that feature, as it is. *)
Theorem single_feature_passthrough
    (FeatureAssembler_run : gmap string (list string) → gmap string (list Q))
    (VmafFeatureExtractor_get_scores_key : string → string)
    (cls : single_feature_runner) (scores : list Q) :
  FeatureAssembler_run {[ "VMAF_feature"%string := [FEATURE_NAME cls] ]}
    !! VmafFeatureExtractor_get_scores_key (FEATURE_NAME cls) = Some scores →
  VmafSingleFeature._run_on_asset FeatureAssembler_run
    VmafFeatureExtractor_get_scores_key cls
  = Ok {[ TYPE (runner_of cls) +:+ "_scores" := scores ]}.
Proof.
  intros Hscores. unfold VmafSingleFeature._run_on_asset, getitem.
  by rewrite Hscores.
Qed.

Lemma single_feature_passthrough_witness :
  VmafSingleFeature._run_on_asset
    (λ _, {[ "VMAF_feature_motion_scores"%string := [0; 3.5; 4.25] ]})
    spec_feature_scores_key Motion
  = Ok {[ "MOTION_scores"%string := [0; 3.5; 4.25] ]}.
Proof.
  apply (single_feature_passthrough
           (λ _, {[ "VMAF_feature_motion_scores"%string := [0; 3.5; 4.25] ]})
           spec_feature_scores_key Motion [0; 3.5; 4.25]).
  reflexivity.
Defined.

(** * Further properties *)

(** ** Legacy post-correction and rescaling *)

Lemma post_correction_range (m s : Q) :
  0 <= VmafLegacy._post_correction m s
  ∧ VmafLegacy._post_correction m s <= 100.
Proof.
  unfold VmafLegacy._post_correction.
  destruct (Qgtb m 12.0); [destruct (Qgtb m 20.0)|]; case_cmp; lra.
Qed.

Lemma post_correction_low_motion (m s : Q) :
  m <= 12 → VmafLegacy._post_correction m s == spec_clip_0_100 s.
Proof.
  intros Hm. unfold VmafLegacy._post_correction, spec_clip_0_100.
  destruct (Qgtb m 12.0) eqn:E1; [apply Qgtb_true in E1; lra|].
  case_cmp; case_minmax; lra.
Qed.

(** The factor applied by the correction, as the code computes it. *)
Lemma post_correction_factor (m s : Q) :
  ∃ k, 1 <= k ∧ k <= 1.12
       ∧ VmafLegacy._post_correction m s == spec_clip_0_100 (s * k)
       ∧ (m <= 12 → k == 1)
       ∧ (12 <= m → m <= 20 → k == (m - 12) * 0.015 + 1)
       ∧ (20 <= m → k == 1.12).
Proof.
  unfold VmafLegacy._post_correction, spec_clip_0_100.
  destruct (Qgtb m 12.0) eqn:E1;
    [destruct (Qgtb m 20.0) eqn:E2;
       [apply Qgtb_true in E2|apply Qgtb_false in E2];
     apply Qgtb_true in E1
    |apply Qgtb_false in E1].
  - exists ((20 - 12) * 0.015 + 1).
    repeat split; try lra. case_cmp; case_minmax; lra.
  - exists ((m - 12) * 0.015 + 1).
    repeat split; try lra. case_cmp; case_minmax; lra.
  - exists 1. repeat split; try lra. case_cmp; case_minmax; lra.
Qed.

Lemma spec_clip_0_100_mono (s s' : Q) :
  s <= s' → spec_clip_0_100 s <= spec_clip_0_100 s'.
Proof. intros. unfold spec_clip_0_100. case_minmax; lra. Qed.

(** X1.  The corrected score is non-decreasing in the predicted score for
    a fixed motion, and, for a non-negative predicted score, non-decreasing
    in the motion. *)
Theorem post_correction_monotone (m m' s s' : Q) :
  (s <= s' →
   VmafLegacy._post_correction m s <= VmafLegacy._post_correction m s')
  ∧ (0 <= s → m <= m' →
     VmafLegacy._post_correction m s <= VmafLegacy._post_correction m' s).
Proof.
  split.
  - intros Hs.
    destruct (post_correction_factor m s) as (k & Hk1 & Hk2 & -> & Hlo & Hmid & Hhi).
    destruct (post_correction_factor m s') as (k' & Hk1' & Hk2' & -> & Hlo' & Hmid' & Hhi').
    apply spec_clip_0_100_mono.
    assert (k == k') as ->.
    { destruct (Qlt_le_dec m 12); [rewrite Hlo, Hlo' by lra; reflexivity|].
      destruct (Qlt_le_dec m 20); [rewrite Hmid, Hmid' by lra; reflexivity|].
      rewrite Hhi, Hhi' by lra; reflexivity. }
    nra.
  - intros Hs Hm.
    destruct (post_correction_factor m s) as (k & Hk1 & Hk2 & -> & Hlo & Hmid & Hhi).
    destruct (post_correction_factor m' s) as (k' & Hk1' & Hk2' & -> & Hlo' & Hmid' & Hhi').
    apply spec_clip_0_100_mono.
    assert (k <= k').
    { destruct (Qlt_le_dec m 12); [rewrite Hlo by lra; lra|].
      destruct (Qlt_le_dec m' 20).
      - rewrite Hmid, Hmid' by lra. lra.
      - rewrite Hhi' by lra. lra. }
    nra.
Qed.

Lemma post_correction_monotone_witness :
  VmafLegacy._post_correction 17 40 <= VmafLegacy._post_correction 17 60
  ∧ VmafLegacy._post_correction 10 60 <= VmafLegacy._post_correction 25 60.
Proof.
  split.
  - apply (post_correction_monotone 17 17 40 60). discriminate.
  - apply (post_correction_monotone 10 25 60 60); discriminate.
Defined.

Lemma spec_rescale1_unit (lower upper v : Q) :
  lower < upper →
  0 <= spec_rescale1 lower upper v ∧ spec_rescale1 lower upper v <= 1.
Proof.
  intros Hlu. unfold spec_rescale1.
  pose proof (clip1_bounds lower upper v) as Hb.
  split.
  - apply Qle_shift_div_l; lra.
  - apply Qle_shift_div_r; lra.
Qed.

(** X2.  With [lower < upper], [_rescale] returns a sequence of the length
    of its input whose every element lies in [[0, 1]], whatever the input
    values. *)
Theorem rescale_unit_interval (vals : list Q) (lower upper : Q) :
  lower < upper →
  ∃ out, VmafLegacy._rescale vals (lower, upper) = np.finite <$> out
    ∧ length out = length vals
    ∧ Forall (λ y, 0 <= y ∧ y <= 1) out.
Proof.
  intros Hlu. exists (spec_rescale1 lower upper <$> vals).
  split; [apply rescale_nonzero; lra|]. split; [by rewrite length_fmap|].
  apply Forall_fmap, Forall_true. intros v. by apply spec_rescale1_unit.
Qed.

Lemma rescale_unit_interval_witness :
  ∃ out, VmafLegacy._rescale [-3; 0.7; 2] (0.4, 1.0) = np.finite <$> out
    ∧ length out = length [-3; 0.7; 2]
    ∧ Forall (λ y, 0 <= y ∧ y <= 1) out.
Proof. apply (rescale_unit_interval [-3; 0.7; 2] 0.4 1.0). reflexivity. Defined.

(** ** The legacy run on one asset *)

Lemma result_mapM_fmap {A B} (f : A → result B) (g : A → B) (l : list A) :
  Forall (λ x, f x = Ok (g x)) l → mapM f l = Ok (g <$> l).
Proof.
  induction 1 as [|x l Hx _ IH]; [done|].
  by rewrite result_mapM_cons, Hx, IH.
Qed.

Lemma zip_star4 {A} (a b c d : list A) :
  zip_star [a; b; c; d]
  = zip_with cons a (zip_with cons b (zip_with cons c ((λ x, [x]) <$> d))).
Proof. reflexivity. Qed.

Lemma zip_star4_length {A} (a b c d : list A) :
  length (zip_star [a; b; c; d])
  = (length a `min` (length b `min` (length c `min` length d)))%nat.
Proof. by rewrite zip_star4, !length_zip_with, length_fmap. Qed.

Lemma zip_star4_Forall {A} (a b c d : list A) :
  Forall (λ v, ∃ x1 x2 x3 x4, v = [x1; x2; x3; x4] ∧ x4 ∈ d)
    (zip_star [a; b; c; d]).
Proof.
  rewrite zip_star4. revert b c d.
  induction a as [|x1 a IH]; intros [|x2 b] [|x3 c] [|x4 d];
    try by constructor.
  cbn. constructor.
  - exists x1, x2, x3, x4. split; [done|]. by apply elem_of_cons; left.
  - eapply Forall_impl; [apply IH|].
    intros v (y1 & y2 & y3 & y4 & -> & Hy). exists y1, y2, y3, y4.
    split; [done|]. by apply elem_of_cons; right.
Qed.

Lemma post_correction_float64_range (motion : np.float64) (s : Q) :
  0 <= VmafLegacyRun._post_correction_float64 motion s
  ∧ VmafLegacyRun._post_correction_float64 motion s <= 100.
Proof. destruct motion as [m| |[]]; apply post_correction_range. Qed.

Lemma rescale_feature_missing (feature_result : gmap string (list Q))
    (acc : list (list np.float64)) (k : string) :
  feature_result !! k = None →
  VmafLegacyRun.rescale_feature feature_result acc k = Raise (KeyError k).
Proof.
  intros Hk. unfold VmafLegacyRun.rescale_feature, getitem. by rewrite Hk.
Qed.

Lemma rescale_feature_present (feature_result : gmap string (list Q))
    (acc : list (list np.float64)) (k : string) (vals : list Q)
    (lower upper : Q) :
  feature_result !! k = Some vals →
  VmafLegacyRun.FEATURE_RESCALE_DICT !! k = Some (lower, upper) →
  ¬ lower == upper →
  VmafLegacyRun.rescale_feature feature_result acc k
  = Ok (acc ++ [np.finite <$> (spec_rescale1 lower upper <$> vals)]).
Proof.
  intros Hk Hb Hne. unfold VmafLegacyRun.rescale_feature, getitem.
  rewrite Hk, Hb. run_result. by rewrite rescale_nonzero.
Qed.

Section legacy_run.

Variable svm_predict : list np.float64 → Q.

Lemma legacy_rescaled (feature_result : gmap string (list Q))
    (vif adm ansnr motion : list Q) :
  feature_result !! "VMAF_feature_vif_scores"%string = Some vif →
  feature_result !! "VMAF_feature_adm_scores"%string = Some adm →
  feature_result !! "VMAF_feature_ansnr_scores"%string = Some ansnr →
  feature_result !! "VMAF_feature_motion_scores"%string = Some motion →
  for_each (VmafLegacyRun.rescale_feature feature_result) []
    VmafLegacyRun.SVM_MODEL_ORDERED_SCORES_KEYS
  = Ok (legacy_scaled vif adm ansnr motion).
Proof.
  intros H1 H2 H3 H4.
  unfold VmafLegacyRun.SVM_MODEL_ORDERED_SCORES_KEYS. cbn [for_each].
  rewrite (rescale_feature_present _ _ _ _ 0.0 1.0 H1)
    by (reflexivity || intros H; discriminate H).
  run_result.
  rewrite (rescale_feature_present _ _ _ _ 0.4 1.0 H2)
    by (reflexivity || intros H; discriminate H).
  run_result.
  rewrite (rescale_feature_present _ _ _ _ 10.0 50.0 H3)
    by (reflexivity || intros H; discriminate H).
  run_result.
  rewrite (rescale_feature_present _ _ _ _ 0.0 20.0 H4)
    by (reflexivity || intros H; discriminate H).
  done.
Qed.

Lemma legacy_scores (vif adm ansnr motion : list Q) :
  mapM (VmafLegacyRun.score_frame svm_predict)
    (zip_star (legacy_scaled vif adm ansnr motion))
  = Ok ((λ v, VmafLegacyRun._post_correction_float64
                (default np.nan (v !! 3%nat)) (svm_predict v))
          <$> zip_star (legacy_scaled vif adm ansnr motion)).
Proof.
  apply result_mapM_fmap. unfold legacy_scaled.
  eapply Forall_impl; [apply zip_star4_Forall|].
  by intros v (x1 & x2 & x3 & x4 & -> & _).
Qed.

Lemma legacy_run_ok (feature_result : gmap string (list Q))
    (vif adm ansnr motion : list Q) :
  feature_result !! "VMAF_feature_vif_scores"%string = Some vif →
  feature_result !! "VMAF_feature_adm_scores"%string = Some adm →
  feature_result !! "VMAF_feature_ansnr_scores"%string = Some ansnr →
  feature_result !! "VMAF_feature_motion_scores"%string = Some motion →
  VmafLegacyRun._run_on_asset svm_predict feature_result
  = Ok (<[get_scores_key VmafLegacyQualityRunner :=
           (λ v, VmafLegacyRun._post_correction_float64
                   (default np.nan (v !! 3%nat)) (svm_predict v))
             <$> zip_star (legacy_scaled vif adm ansnr motion)]>
          feature_result).
Proof.
  intros H1 H2 H3 H4. unfold VmafLegacyRun._run_on_asset.
  rewrite (legacy_rescaled _ _ _ _ _ H1 H2 H3 H4). run_result.
  by rewrite legacy_scores.
Qed.

End legacy_run.

(** X3.  When the feature result holds the four feature sequences, the
    legacy run succeeds and returns the feature result with the scores
    added under ["VMAF_legacy_scores"]: one score per frame up to the
    shortest of the four sequences, each in [[0, 100]]. *)
Theorem legacy_run_scores (svm_predict : list np.float64 → Q)
    (feature_result : gmap string (list Q)) (vif adm ansnr motion : list Q) :
  feature_result !! "VMAF_feature_vif_scores"%string = Some vif →
  feature_result !! "VMAF_feature_adm_scores"%string = Some adm →
  feature_result !! "VMAF_feature_ansnr_scores"%string = Some ansnr →
  feature_result !! "VMAF_feature_motion_scores"%string = Some motion →
  ∃ scores,
    VmafLegacyRun._run_on_asset svm_predict feature_result
    = Ok (<["VMAF_legacy_scores"%string := scores]> feature_result)
    ∧ length scores
      = (length vif `min` (length adm `min`
           (length ansnr `min` length motion)))%nat
    ∧ Forall (λ s, 0 <= s ∧ s <= 100) scores.
Proof.
  intros H1 H2 H3 H4. eexists. split; [by apply legacy_run_ok|]. split.
  - unfold legacy_scaled.
    by rewrite length_fmap, zip_star4_length, !length_fmap.
  - apply Forall_fmap, Forall_true. intros v.
    apply post_correction_float64_range.
Qed.

Lemma legacy_run_scores_witness :
  ∃ scores,
    VmafLegacyRun._run_on_asset first_feature_percent
      {[ "VMAF_feature_vif_scores"%string := [0.5; 0.9; 2];
         "VMAF_feature_adm_scores"%string := [0.7; 1.0];
         "VMAF_feature_ansnr_scores"%string := [30; 45; 50];
         "VMAF_feature_motion_scores"%string := [3; 18; 25] ]}
    = Ok (<["VMAF_legacy_scores"%string := scores]>
            {[ "VMAF_feature_vif_scores"%string := [0.5; 0.9; 2];
               "VMAF_feature_adm_scores"%string := [0.7; 1.0];
               "VMAF_feature_ansnr_scores"%string := [30; 45; 50];
               "VMAF_feature_motion_scores"%string := [3; 18; 25] ]})
    ∧ length scores
      = (length [0.5; 0.9; 2]%Q `min` (length [0.7; 1.0]%Q `min`
           (length [30; 45; 50]%Q `min` length [3; 18; 25]%Q)))%nat
    ∧ Forall (λ s, 0 <= s ∧ s <= 100) scores.
Proof.
  apply (legacy_run_scores first_feature_percent
           {[ "VMAF_feature_vif_scores"%string := [0.5; 0.9; 2];
              "VMAF_feature_adm_scores"%string := [0.7; 1.0];
              "VMAF_feature_ansnr_scores"%string := [30; 45; 50];
              "VMAF_feature_motion_scores"%string := [3; 18; 25] ]}
           [0.5; 0.9; 2] [0.7; 1.0] [30; 45; 50] [3; 18; 25]);
    vm_compute; reflexivity.
Defined.

(** X4.  In the legacy run the motion handed to the post-correction is the
    rescaled one, which is at most 1: the correction factor is never
    applied and every score is the prediction for the rescaled feature
    vector clipped to [[0, 100]]. *)
Theorem legacy_run_no_motion_correction (svm_predict : list np.float64 → Q)
    (feature_result : gmap string (list Q)) (vif adm ansnr motion : list Q) :
  feature_result !! "VMAF_feature_vif_scores"%string = Some vif →
  feature_result !! "VMAF_feature_adm_scores"%string = Some adm →
  feature_result !! "VMAF_feature_ansnr_scores"%string = Some ansnr →
  feature_result !! "VMAF_feature_motion_scores"%string = Some motion →
  ∃ scores,
    VmafLegacyRun._run_on_asset svm_predict feature_result
    = Ok (<["VMAF_legacy_scores"%string := scores]> feature_result)
    ∧ Qlist_eq scores
        ((λ v, spec_clip_0_100 (svm_predict v))
           <$> zip_star (legacy_scaled vif adm ansnr motion)).
Proof.
  intros H1 H2 H3 H4. eexists. split; [by apply legacy_run_ok|].
  unfold Qlist_eq. apply Forall2_fmap, Forall_Forall2_diag.
  unfold legacy_scaled. eapply Forall_impl; [apply zip_star4_Forall|].
  intros v (x1 & x2 & x3 & x4 & -> & Hx4). cbn.
  apply list_elem_of_fmap in Hx4 as (y & -> & Hy).
  apply list_elem_of_fmap in Hy as (m & -> & _).
  apply post_correction_low_motion.
  destruct (spec_rescale1_unit 0.0 20.0 m); [reflexivity|]. lra.
Qed.

Lemma legacy_run_no_motion_correction_witness :
  ∃ scores,
    VmafLegacyRun._run_on_asset first_feature_percent
      {[ "VMAF_feature_vif_scores"%string := [0.5];
         "VMAF_feature_adm_scores"%string := [0.7];
         "VMAF_feature_ansnr_scores"%string := [30];
         "VMAF_feature_motion_scores"%string := [19] ]}
    = Ok (<["VMAF_legacy_scores"%string := scores]>
            {[ "VMAF_feature_vif_scores"%string := [0.5];
               "VMAF_feature_adm_scores"%string := [0.7];
               "VMAF_feature_ansnr_scores"%string := [30];
               "VMAF_feature_motion_scores"%string := [19] ]})
    ∧ Qlist_eq scores
        ((λ v, spec_clip_0_100 (first_feature_percent v))
           <$> zip_star (legacy_scaled [0.5] [0.7] [30] [19])).
Proof.
  apply (legacy_run_no_motion_correction first_feature_percent
           {[ "VMAF_feature_vif_scores"%string := [0.5];
              "VMAF_feature_adm_scores"%string := [0.7];
              "VMAF_feature_ansnr_scores"%string := [30];
              "VMAF_feature_motion_scores"%string := [19] ]}
           [0.5] [0.7] [30] [19]);
    vm_compute; reflexivity.
Defined.

(** X5.  When one of the four feature sequences is missing, the legacy run
    raises [KeyError] for the first missing key in the declared order. *)
Theorem legacy_run_missing_feature (svm_predict : list np.float64 → Q)
    (feature_result : gmap string (list Q)) (k : string) :
  k ∈ VmafLegacyRun.SVM_MODEL_ORDERED_SCORES_KEYS →
  feature_result !! k = None →
  ∃ before after,
    VmafLegacyRun.SVM_MODEL_ORDERED_SCORES_KEYS = before ++ after
    ∧ Forall (λ k', is_Some (feature_result !! k')) before
    ∧ ∃ k' rest, after = k' :: rest ∧ feature_result !! k' = None
      ∧ VmafLegacyRun._run_on_asset svm_predict feature_result
        = Raise (KeyError k').
Proof.
  intros Hk Hnone.
  unfold VmafLegacyRun._run_on_asset,
    VmafLegacyRun.SVM_MODEL_ORDERED_SCORES_KEYS in *.
  cbn [for_each].
  destruct (feature_result !! "VMAF_feature_vif_scores"%string) as [a|] eqn:H1.
  2:{ exists [], VmafLegacyRun.SVM_MODEL_ORDERED_SCORES_KEYS.
      split; [done|]. split; [done|]. do 2 eexists. split; [done|].
      split; [done|]. by rewrite rescale_feature_missing. }
  rewrite (rescale_feature_present _ _ _ _ 0.0 1.0 H1)
    by (reflexivity || intros H; discriminate H).
  run_result.
  destruct (feature_result !! "VMAF_feature_adm_scores"%string) as [b|] eqn:H2.
  2:{ eexists [_], _. split; [done|]. split; [by repeat constructor|].
      do 2 eexists. split; [done|]. split; [done|].
      by rewrite rescale_feature_missing. }
  rewrite (rescale_feature_present _ _ _ _ 0.4 1.0 H2)
    by (reflexivity || intros H; discriminate H).
  run_result.
  destruct (feature_result !! "VMAF_feature_ansnr_scores"%string) as [c|] eqn:H3.
  2:{ eexists [_; _], _. split; [done|]. split; [by repeat constructor|].
      do 2 eexists. split; [done|]. split; [done|].
      by rewrite rescale_feature_missing. }
  rewrite (rescale_feature_present _ _ _ _ 10.0 50.0 H3)
    by (reflexivity || intros H; discriminate H).
  run_result.
  destruct (feature_result !! "VMAF_feature_motion_scores"%string) as [d|] eqn:H4.
  2:{ eexists [_; _; _], _. split; [done|]. split; [by repeat constructor|].
      do 2 eexists. split; [done|]. split; [done|].
      by rewrite rescale_feature_missing. }
  exfalso.
  repeat (apply elem_of_cons in Hk as [->|Hk]; [congruence|]).
  by apply elem_of_nil in Hk.
Qed.

Lemma legacy_run_missing_feature_witness :
  ∃ before after,
    VmafLegacyRun.SVM_MODEL_ORDERED_SCORES_KEYS = before ++ after
    ∧ Forall (λ k', is_Some
        (({[ "VMAF_feature_vif_scores"%string := [0.5] ]}
            : gmap string (list Q)) !! k')) before
    ∧ ∃ k' rest, after = k' :: rest
      ∧ ({[ "VMAF_feature_vif_scores"%string := [0.5] ]}
           : gmap string (list Q)) !! k' = None
      ∧ VmafLegacyRun._run_on_asset (λ _, 50)
          {[ "VMAF_feature_vif_scores"%string := [0.5] ]}
        = Raise (KeyError k').
Proof.
  apply (legacy_run_missing_feature (λ _, 50)
           {[ "VMAF_feature_vif_scores"%string := [0.5] ]}
           "VMAF_feature_motion_scores"%string).
  - apply (bool_decide_unpack _). by vm_compute.
  - by vm_compute.
Defined.

(** ** More on the transform and clip steps *)

Lemma as_number_error (v : value) (e : exn) :
  as_number v = Raise e → e = TypeError.
Proof. destruct v; cbn; congruence. Qed.

Lemma transform_score_coefficient_error (model : TrainTestModel)
    (d : gmap string value) (k : string) (e : exn) (ys : list Q) :
  score_transform model = Some d →
  k ∈ ["p0"; "p1"; "p2"]%string →
  spec_coefficient d k = Raise e →
  Vmaf.transform_score model ys = Raise TypeError.
Proof.
  intros Hd Hk He. unfold Vmaf.transform_score. rewrite Hd.
  unfold spec_coefficient in He.
  assert (H0 : ∀ v, d !! "p0"%string = Some v → succeeds (as_number v)
                    ∨ as_number v = Raise TypeError).
  { intros v _. destruct (as_number v) as [q|e'] eqn:E; [left; by eexists|].
    right. by rewrite (as_number_error _ _ E). }
  repeat (apply elem_of_cons in Hk as [->|Hk]);
    [| | |by apply elem_of_nil in Hk].
  - destruct (d !! "p0"%string) as [v|]; [|done].
    by rewrite He, (as_number_error _ _ He).
  - destruct (d !! "p1"%string) as [v1|]; [|done].
    rewrite He, (as_number_error _ _ He).
    destruct (d !! "p0"%string) as [v0|]; [|done].
    destruct (as_number v0) as [q|e'] eqn:E; [done|].
    by rewrite (as_number_error _ _ E).
  - destruct (d !! "p2"%string) as [v2|]; [|done].
    rewrite He, (as_number_error _ _ He).
    destruct (d !! "p0"%string) as [v0|];
      [destruct (as_number v0) as [q|e'] eqn:E0;
         [|by rewrite (as_number_error _ _ E0)]|];
      (destruct (d !! "p1"%string) as [v1|];
        [destruct (as_number v1) as [q1|e1] eqn:E1;
           [|by rewrite (as_number_error _ _ E1)]|]);
      done.
Qed.

(** X6.  A coefficient of the transform specification that is present
    but is a string or [None] makes the transform step raise
    [TypeError]. *)
Theorem transform_score_non_numeric (model : TrainTestModel)
    (d : gmap string value) (k : string) (v : value) (ys : list Q) :
  score_transform model = Some d →
  k ∈ ["p0"; "p1"; "p2"]%string →
  d !! k = Some v →
  (v = VNone ∨ ∃ s, v = VStr s) →
  Vmaf.transform_score model ys = Raise TypeError.
Proof.
  intros Hd Hk Hv Hbad.
  apply (transform_score_coefficient_error model d k TypeError); [done..|].
  unfold spec_coefficient. rewrite Hv. by destruct Hbad as [->|[s ->]].
Qed.

Lemma transform_score_non_numeric_witness :
  Vmaf.transform_score
    (Vmaf.set_transform_score bare_model
       {[ "p0" := VNum 1; "p1" := VStr "1" ]}) [2; 3]
  = Raise TypeError.
Proof.
  apply (transform_score_non_numeric
           (Vmaf.set_transform_score bare_model
              {[ "p0" := VNum 1; "p1" := VStr "1" ]})
           {[ "p0" := VNum 1; "p1" := VStr "1" ]} "p1"%string (VStr "1")).
  - reflexivity.
  - apply (bool_decide_unpack _). by vm_compute.
  - by vm_compute.
  - right. by eexists.
Defined.

Lemma transform_score_ok_closed (model : TrainTestModel)
    (d : gmap string value) (ys out : list Q) :
  score_transform model = Some d →
  Vmaf.transform_score model ys = Ok out →
  ∃ p0 p1 p2,
    Qlist_eq out
      (spec_transform1 p0 p1 p2 (spec_flag_set d "out_lte_in")
         (spec_flag_set d "out_gte_in") <$> ys).
Proof.
  intros Hd Hout.
  destruct (spec_coefficient d "p0") as [p0|e0] eqn:E0.
  2:{ rewrite (transform_score_coefficient_error model d "p0"%string e0)
        in Hout; [done..| |done]. by apply elem_of_cons; left. }
  destruct (spec_coefficient d "p1") as [p1|e1] eqn:E1.
  2:{ rewrite (transform_score_coefficient_error model d "p1"%string e1)
        in Hout; [done..| |done].
      apply elem_of_cons; right. by apply elem_of_cons; left. }
  destruct (spec_coefficient d "p2") as [p2|e2] eqn:E2.
  2:{ rewrite (transform_score_coefficient_error model d "p2"%string e2)
        in Hout; [done..| |done].
      do 2 (apply elem_of_cons; right). by apply elem_of_cons; left. }
  destruct (transform_score_declared model d p0 p1 p2 ys Hd E0 E1 E2)
    as (out' & Hout' & Heq).
  rewrite Hout in Hout'. injection Hout' as <-. eauto.
Qed.

(** X7.  The transform step never changes the number of scores. *)
Theorem transform_score_length (model : TrainTestModel) (ys out : list Q) :
  Vmaf.transform_score model ys = Ok out → length out = length ys.
Proof.
  intros Hout. destruct (score_transform model) as [d|] eqn:Hd.
  - destruct (transform_score_ok_closed model d ys out Hd Hout)
      as (p0 & p1 & p2 & Heq).
    apply Forall2_length in Heq. by rewrite length_fmap in Heq.
  - unfold Vmaf.transform_score in Hout. rewrite Hd in Hout. congruence.
Qed.

Lemma transform_score_length_witness :
  length [0 + 5; 0 + 5] = length [2; 2].
Proof.
  apply (transform_score_length
           (Vmaf.set_transform_score bare_model {[ "p0" := VNum 5 ]})
           [2; 2] [0 + 5; 0 + 5]).
  by vm_compute.
Defined.

Lemma Qlist_eq_fmap_rel (R : Q → Q → Prop) (f : Q → Q) (out ys : list Q) :
  (∀ o o' i, o == o' → R o' i → R o i) →
  (∀ y, R (f y) y) →
  Qlist_eq out (f <$> ys) → Forall2 R out ys.
Proof.
  intros HR Hf. unfold Qlist_eq. revert out.
  induction ys as [|y ys IH]; intros out Hout.
  - apply Forall2_nil_inv_r in Hout as ->. constructor.
  - cbn in Hout. apply Forall2_cons_inv_r in Hout as (o & out' & Ho & Hout' & ->).
    constructor; [by eapply HR|by apply IH].
Qed.

Lemma spec_flag_set_true (d : gmap string value) (k : string) :
  d !! k = Some (VStr "true") → spec_flag_set d k = true.
Proof. intros Hk. unfold spec_flag_set. by rewrite Hk. Qed.

(** X8.  With [out_gte_in] holding ['true'] every transformed score is at
    least its input; with [out_lte_in] holding ['true'] and [out_gte_in]
    not, every transformed score is at most its input; with both, the
    transform returns its input (the lte clamp is applied first, the gte
    clamp second). *)
Theorem transform_score_rectified (model : TrainTestModel)
    (d : gmap string value) (ys out : list Q) :
  score_transform model = Some d →
  Vmaf.transform_score model ys = Ok out →
  (d !! "out_gte_in"%string = Some (VStr "true") →
     Forall2 (λ o i, i <= o) out ys)
  ∧ (d !! "out_lte_in"%string = Some (VStr "true") →
     spec_flag_set d "out_gte_in" = false →
     Forall2 (λ o i, o <= i) out ys)
  ∧ (d !! "out_lte_in"%string = Some (VStr "true") →
     d !! "out_gte_in"%string = Some (VStr "true") →
     Qlist_eq out ys).
Proof.
  intros Hd Hout.
  destruct (transform_score_ok_closed model d ys out Hd Hout)
    as (p0 & p1 & p2 & Heq).
  split; [|split].
  - intros Hg. rewrite (spec_flag_set_true d "out_gte_in" Hg) in Heq.
    eapply Qlist_eq_fmap_rel; [| |exact Heq].
    + intros o o' i Ho Hle. by rewrite Ho.
    + intros y. unfold spec_transform1. cbv zeta. apply Q.le_max_r.
  - intros Hl Hg. rewrite (spec_flag_set_true d "out_lte_in" Hl), Hg in Heq.
    eapply Qlist_eq_fmap_rel; [| |exact Heq].
    + intros o o' i Ho Hle. by rewrite Ho.
    + intros y. unfold spec_transform1. cbv zeta. apply Q.le_min_r.
  - intros Hl Hg.
    rewrite (spec_flag_set_true d "out_lte_in" Hl),
      (spec_flag_set_true d "out_gte_in" Hg) in Heq.
    eapply Qlist_eq_fmap_rel; [| |exact Heq].
    + intros o o' i Ho Hle. by rewrite Ho.
    + intros y. unfold spec_transform1. cbv zeta.
      apply Q.max_r, Q.le_min_r.
Qed.

Lemma transform_score_rectified_witness :
  Qlist_eq [Qmax (Qmin (0 + 1 + 3 * 2) 2) 2; Qmax (Qmin (0 + 1 + 3 * -1) (-1)) (-1)]
    [2; -1].
Proof.
  destruct (transform_score_rectified
              (Vmaf.set_transform_score bare_model
                 {[ "p0" := VNum 1; "p1" := VNum 3;
                    "out_lte_in" := VStr "true";
                    "out_gte_in" := VStr "true" ]})
              {[ "p0" := VNum 1; "p1" := VNum 3;
                 "out_lte_in" := VStr "true"; "out_gte_in" := VStr "true" ]}
              [2; -1]
              [Qmax (Qmin (0 + 1 + 3 * 2) 2) 2;
               Qmax (Qmin (0 + 1 + 3 * -1) (-1)) (-1)])
    as (_ & _ & Hboth).
  - reflexivity.
  - by vm_compute.
  - apply Hboth; by vm_compute.
Defined.

(** X9.  A transform specification that declares no coefficient and
    sets no rectification flag maps every score to 0. *)
Theorem transform_score_without_coefficients (model : TrainTestModel)
    (d : gmap string value) (ys : list Q) :
  score_transform model = Some d →
  d !! "p0"%string = None → d !! "p1"%string = None →
  d !! "p2"%string = None →
  spec_flag_set d "out_lte_in" = false →
  spec_flag_set d "out_gte_in" = false →
  Vmaf.transform_score model ys = Ok (replicate (length ys) 0).
Proof.
  intros Hd H0 H1 H2 Hl Hg. rewrite spec_flag_set_eq_str in Hl, Hg.
  unfold Vmaf.transform_score. rewrite Hd, H0, H1, H2. run_result.
  destruct (d !! "out_lte_in"%string) as [vl|]; [rewrite Hl|];
    (destruct (d !! "out_gte_in"%string) as [vg|]; [rewrite Hg|]); done.
Qed.

Lemma transform_score_without_coefficients_witness :
  Vmaf.transform_score
    (Vmaf.set_transform_score bare_model {[ "out_lte_in" := VBool true ]})
    [80; 95]
  = Ok (replicate (length [80; 95]) 0).
Proof.
  apply (transform_score_without_coefficients
           (Vmaf.set_transform_score bare_model
              {[ "out_lte_in" := VBool true ]})
           {[ "out_lte_in" := VBool true ]} [80; 95]);
    vm_compute; reflexivity.
Defined.

(** X10.  The clip step keeps the number of scores and is idempotent; with
    inverted bounds ([upper < lower]) it sets every score to [upper]. *)
Theorem clip_score_idempotent (model : TrainTestModel) (ys : list Q) :
  length (Vmaf.clip_score model ys) = length ys
  ∧ Qlist_eq (Vmaf.clip_score model (Vmaf.clip_score model ys))
      (Vmaf.clip_score model ys)
  ∧ (∀ lower upper, score_clip model = Some (lower, upper) →
       upper < lower →
       Forall (λ y, y == upper) (Vmaf.clip_score model ys)).
Proof.
  unfold Vmaf.clip_score. destruct (score_clip model) as [[lb ub]|].
  - unfold np.clip. split; [by rewrite length_fmap|]. split.
    + rewrite <- list_fmap_compose. apply Qlist_eq_fmap. intros y.
      unfold compose, np.clip1. case_minmax; lra.
    + intros lower upper [= <- <-] Hinv.
      apply Forall_fmap, Forall_true. intros y.
      unfold compose, np.clip1. case_minmax; lra.
  - split; [done|]. split; [|done].
    unfold Qlist_eq. by apply Forall_Forall2_diag, Forall_true.
Qed.

Lemma clip_score_idempotent_witness :
  Forall (λ y, y == 10)
    (Vmaf.clip_score (Vmaf.set_clip_score bare_model (90, 10)) [0; 50; 100]).
Proof.
  destruct (clip_score_idempotent
              (Vmaf.set_clip_score bare_model (90, 10)) [0; 50; 100])
    as (_ & _ & Hinv).
  apply (Hinv 90 10); reflexivity.
Defined.

Lemma spec_option_on_false_is_True (kwargs : gmap string value) (k : string) :
  spec_option_on kwargs k = false →
  match kwargs !! k with Some v => is_True v | None => false end = false.
Proof. by rewrite spec_option_on_is_True. Qed.

(** X11.  Whatever the runner class and whether or not the transform
    ran, when clipping is not disabled and the model declares bounds
    [lower <= upper], every score [predict_with_model] returns lies in
    [[lower, upper]]. *)
Theorem predict_with_model_bounded (cls : runner) (model : TrainTestModel)
    (xs : list (list Q)) (kwargs : gmap string value) (lower upper : Q)
    (ys : list Q) :
  score_clip model = Some (lower, upper) →
  lower <= upper →
  spec_option_on kwargs "disable_clip_score" = false →
  Vmaf.predict_with_model cls model xs kwargs = Ok ys →
  Forall (λ y, lower <= y ∧ y <= upper) ys.
Proof.
  intros Hc Hle Hoff%spec_option_on_false_is_True.
  unfold Vmaf.predict_with_model.
  destruct (if Vmaf._do_transform_score cls kwargs
            then Vmaf.transform_score model (predict model xs)
            else Ok (predict model xs)) as [ys'|e]; [|done].
  run_result. intros [= <-].
  assert (Hclip : Forall (λ y, lower <= y ∧ y <= upper)
                    (Vmaf.clip_score model ys')).
  { unfold Vmaf.clip_score, np.clip. rewrite Hc.
    apply Forall_fmap, Forall_true. intros y. by apply clip1_bounds. }
  destruct (kwargs !! "disable_clip_score"%string) as [v|]; [|done].
  by rewrite Hoff.
Qed.

Lemma predict_with_model_bounded_witness :
  Forall (λ y, 0 <= y ∧ y <= 100)
    [Qmin (Qmax (0 + 2 * 70) 0) 100; Qmin (Qmax (0 + 2 * -4) 0) 100].
Proof.
  apply (predict_with_model_bounded VmafPhoneQualityRunner
           (Vmaf.set_clip_score
              (Vmaf.set_transform_score bare_model {[ "p1" := VNum 2 ]})
              (0, 100))
           [[70]; [-4]] {[ "disable_clip_score" := VNum 1 ]} 0 100);
    [reflexivity|discriminate|by vm_compute|by vm_compute].
Defined.

Lemma is_True_false (v : value) : v ≠ VBool true → is_True v = false.
Proof. by destruct v as [|[]| |]. Qed.

(** X12.  A keyword flag acts only when it is the boolean [True]: passing
    [enable_transform_score] or [disable_clip_score] with any other value
    (a number, a string, [False], [None]) gives the result of not passing
    it. *)
Theorem predict_with_model_flag_needs_True (cls : runner)
    (model : TrainTestModel) (xs : list (list Q))
    (kwargs : gmap string value) (k : string) (v : value) :
  k = "enable_transform_score"%string ∨ k = "disable_clip_score"%string →
  v ≠ VBool true →
  Vmaf.predict_with_model cls model xs (<[k := v]> kwargs)
  = Vmaf.predict_with_model cls model xs (delete k kwargs).
Proof.
  intros Hk Hv%is_True_false.
  unfold Vmaf.predict_with_model, Vmaf._do_transform_score.
  destruct Hk as [-> | ->].
  - rewrite lookup_insert_eq, lookup_delete_eq, Hv.
    by rewrite lookup_insert_ne, lookup_delete_ne by done.
  - rewrite lookup_insert_eq, lookup_delete_eq, Hv.
    by rewrite lookup_insert_ne, lookup_delete_ne by done.
Qed.

Lemma predict_with_model_flag_needs_True_witness :
  Vmaf.predict_with_model VmafQualityRunner
    (Vmaf.set_clip_score bare_model (0, 100)) [[150]]
    (<["disable_clip_score"%string := VStr "True"]> ∅)
  = Vmaf.predict_with_model VmafQualityRunner
      (Vmaf.set_clip_score bare_model (0, 100)) [[150]]
      (delete "disable_clip_score"%string ∅).
Proof.
  apply (predict_with_model_flag_needs_True VmafQualityRunner
           (Vmaf.set_clip_score bare_model (0, 100)) [[150]] ∅
           "disable_clip_score"%string (VStr "True"));
    [by right|discriminate].
Defined.

(** ** The run of VmafQualityRunner and VmafPhoneQualityRunner *)

Lemma option_or_is_True (optional_dict : option (gmap string value))
    (k : string) :
  is_True (option_or optional_dict k (VBool false))
  = option_is_True optional_dict k.
Proof.
  unfold option_or, option_is_True. destruct optional_dict as [d|]; [|done].
  rewrite spec_option_on_is_True. by destruct (d !! k).
Qed.

(** X13.  The run of VmafQualityRunner loads the model, predicts,
    transforms when the configuration holds [enable_transform_score] as
    [True], clips unless it holds [disable_clip_score] as [True], and
    returns the feature result with the scores added under
    ["VMAF_scores"]; without a configuration the scores are the clipped
    predictions.  The run of VmafPhoneQualityRunner transforms in every
    case and stores the scores under ["VMAF_Phone_scores"]. *)
Theorem vmaf_run_spec (from_file : value → TrainTestModel)
    (DEFAULT_MODEL_FILEPATH : value)
    (get_per_unit_xs_from_a_result :
       TrainTestModel → gmap string (list Q) → list (list Q))
    (optional_dict : option (gmap string value))
    (feature_result : gmap string (list Q)) :
  let model :=
    VmafRun._load_model from_file DEFAULT_MODEL_FILEPATH optional_dict in
  let ys_pred :=
    predict model (get_per_unit_xs_from_a_result model feature_result) in
  let clip ys :=
    if option_is_True optional_dict "disable_clip_score" then ys
    else Vmaf.clip_score model ys in
  VmafRun._run_on_asset from_file DEFAULT_MODEL_FILEPATH
    get_per_unit_xs_from_a_result VmafQualityRunner optional_dict
    feature_result
  = (ys ← (if option_is_True optional_dict "enable_transform_score"
           then Vmaf.transform_score model ys_pred else Ok ys_pred);
     Ok (<["VMAF_scores"%string := clip ys]> feature_result))
  ∧ VmafRun._run_on_asset from_file DEFAULT_MODEL_FILEPATH
      get_per_unit_xs_from_a_result VmafPhoneQualityRunner optional_dict
      feature_result
    = (ys ← Vmaf.transform_score model ys_pred;
       Ok (<["VMAF_Phone_scores"%string := clip ys]> feature_result))
  ∧ VmafRun._run_on_asset from_file DEFAULT_MODEL_FILEPATH
      get_per_unit_xs_from_a_result VmafQualityRunner None feature_result
    = Ok (<["VMAF_scores"%string :=
              Vmaf.clip_score (from_file DEFAULT_MODEL_FILEPATH)
                (predict (from_file DEFAULT_MODEL_FILEPATH)
                   (get_per_unit_xs_from_a_result
                      (from_file DEFAULT_MODEL_FILEPATH) feature_result))]>
            feature_result).
Proof.
  cbv zeta. unfold VmafRun._run_on_asset, Vmaf.predict_with_model,
    Vmaf._do_transform_score.
  rewrite !lookup_insert_eq, !lookup_insert_ne, !lookup_singleton_eq by done.
  rewrite !option_or_is_True.
  split; [|split; [|done]].
  - destruct (option_is_True optional_dict "enable_transform_score");
      [destruct (Vmaf.transform_score _ _)|]; done.
  - destruct (Vmaf.transform_score _ _); done.
Qed.

(** ** More on the plain-text log *)

Lemma string_app_nil_l (s : string) : (EmptyString +:+ s)%string = s.
Proof. reflexivity. Qed.

Lemma string_app_cons (c : ascii) (s t : string) :
  (String c s +:+ t)%string = String c (s +:+ t).
Proof. reflexivity. Qed.

Lemma span_spec (p : ascii → bool) (s a b : string) :
  re.span p s = (a, b) ↔
  s = (a +:+ b)%string ∧ string_forall p a = true ∧ starts_in p b = false.
Proof.
  revert a b. induction s as [|c s IH]; intros a b; cbn [re.span].
  - split.
    + by intros [= <- <-].
    + intros (Hs & _ & _). destruct a; [|done].
      rewrite string_app_nil_l in Hs. by subst b.
  - destruct (p c) eqn:Hc.
    + destruct (re.span p s) as [a' b'] eqn:Hspan. split.
      * intros [= <- <-]. destruct (IH a' b') as [(-> & Ha & Hb) _]; [done|].
        rewrite string_app_cons. cbn. by rewrite Hc, Ha.
      * intros (Hs & Ha & Hb). destruct a as [|c' a].
        { rewrite string_app_nil_l in Hs. subst b. cbn in Hb. congruence. }
        rewrite string_app_cons in Hs. injection Hs as <- ->.
        cbn in Ha. rewrite Hc in Ha. cbn in Ha.
        destruct (IH a b) as [_ Hback].
        by injection (Hback (conj eq_refl (conj Ha Hb))) as -> ->.
    + split.
      * intros [= <- <-]. rewrite string_app_nil_l. cbn. by rewrite Hc.
      * intros (Hs & Ha & Hb). destruct a as [|c' a].
        { rewrite string_app_nil_l in Hs. by subst b. }
        rewrite string_app_cons in Hs. injection Hs as <- ->. cbn in Ha.
        by rewrite Hc in Ha.
Qed.

Lemma strip_prefix_spec (p s r : string) :
  re.strip_prefix p s = Some r ↔ s = (p +:+ r)%string.
Proof.
  revert s. induction p as [|a p IH]; intros s; cbn [re.strip_prefix].
  - rewrite string_app_nil_l. split; [by intros [= ->]|by intros ->].
  - rewrite string_app_cons. destruct s as [|b s]; [by split|].
    destruct (Ascii.eqb_spec a b) as [->|Hne].
    + rewrite IH. split; [by intros ->|by intros [= ->]].
    + split; [done|]. intros [= ? ?]. by subst.
Qed.

(** X14.  A line matches the pattern of the log exactly when it reads
    [psnr: ], a non-empty run of digits, one space and a non-empty run of
    characters from [[0-9.-]]; the groups are these two runs, the second
    taken as long as possible, and whatever follows it is ignored. *)
Theorem match_psnr_spec (line g1 g2 : string) :
  re.match_psnr line = Some (g1, g2) ↔
  g1 ≠ EmptyString ∧ string_forall re.is_digit g1 = true
  ∧ g2 ≠ EmptyString ∧ string_forall re.is_value_char g2 = true
  ∧ ∃ rest, line = ("psnr: " +:+ g1 +:+ " " +:+ g2 +:+ rest)%string
            ∧ starts_in re.is_value_char rest = false.
Proof.
  unfold re.match_psnr. split.
  - destruct (re.strip_prefix "psnr: " line) as [r|] eqn:Hp; [|done].
    apply strip_prefix_spec in Hp as ->.
    destruct (re.span re.is_digit r) as [a b] eqn:Ha.
    apply span_spec in Ha as (-> & Ha & Hb).
    destruct a as [|c a]; [done|].
    destruct b as [|[[] [] [] [] [] [] [] []] b]; try done.
    destruct (re.span re.is_value_char b) as [a2 b2] eqn:H2.
    apply span_spec in H2 as (-> & Ha2 & Hb2).
    destruct a2 as [|c2 a2]; [done|]. intros [= <- <-].
    repeat split; [done..|]. by exists b2.
  - intros (Hg1 & Hd1 & Hg2 & Hd2 & rest & -> & Hrest).
    assert (Hp : re.strip_prefix "psnr: "
                   ("psnr: " +:+ g1 +:+ " " +:+ g2 +:+ rest)
                 = Some (g1 +:+ " " +:+ g2 +:+ rest)%string)
      by by apply strip_prefix_spec.
    rewrite Hp.
    assert (H1 : re.span re.is_digit (g1 +:+ " " +:+ g2 +:+ rest)
                 = (g1, (" " +:+ g2 +:+ rest)%string))
      by by apply span_spec.
    rewrite H1. destruct g1 as [|c1 g1]; [done|].
    rewrite (string_app_cons " " EmptyString), string_app_nil_l.
    assert (H2 : re.span re.is_value_char (g2 +:+ rest) = (g2, rest))
      by by apply span_spec.
    rewrite H2. by destruct g2.
Qed.

Lemma match_psnr_spec_witness :
  re.match_psnr "psnr: 12 -30.5 dB" = Some ("12", "-30.5")%string.
Proof.
  apply (match_psnr_spec "psnr: 12 -30.5 dB" "12" "-30.5").
  repeat split; [done..|]. by exists " dB"%string.
Defined.

Lemma matched_records_app (l1 l2 : list string) :
  matched_records (l1 ++ l2) = matched_records l1 ++ matched_records l2.
Proof. unfold matched_records. apply omap_app. Qed.

Lemma psnr_scores_of_records (l1 l2 : list string) :
  matched_records l1 = matched_records l2 →
  Psnr._get_quality_scores l1 = Psnr._get_quality_scores l2.
Proof.
  intros Heq. unfold Psnr._get_quality_scores.
  by rewrite !psnr_loop_records, Heq.
Qed.

(** X15.  Lines that do not match the pattern are ignored wherever they
    stand: removing one from the log does not change the outcome. *)
Theorem psnr_ignores_other_lines (l1 l2 : list string) (line : string) :
  re.match_psnr line = None →
  Psnr._get_quality_scores (l1 ++ line :: l2)
  = Psnr._get_quality_scores (l1 ++ l2).
Proof.
  intros Hline. apply psnr_scores_of_records.
  rewrite !matched_records_app. f_equal.
  unfold matched_records. cbn [omap list_omap]. by rewrite Hline.
Qed.

Lemma psnr_ignores_other_lines_witness :
  Psnr._get_quality_scores
    (["psnr: 0 30.1"%string] ++ "Psnr: 1 99"%string :: ["psnr: 1 31.4"%string])
  = Psnr._get_quality_scores
      (["psnr: 0 30.1"%string] ++ ["psnr: 1 31.4"%string]).
Proof.
  apply (psnr_ignores_other_lines ["psnr: 0 30.1"%string]
           ["psnr: 1 31.4"%string] "Psnr: 1 99"%string).
  reflexivity.
Defined.

Lemma run_from_app (start : N) (n m : nat) :
  run_from start (n + m)
  = run_from start n ++ run_from (start + N.of_nat n)%N m.
Proof.
  revert start. induction n as [|n IH]; intros start.
  - cbn. by rewrite N.add_0_r.
  - cbn [Nat.add run_from app]. rewrite IH. do 3 f_equal. lia.
Qed.

Lemma run_from_length (start : N) (n : nat) : length (run_from start n) = n.
Proof. revert start. induction n as [|n IH]; intros; cbn; by rewrite ?IH. Qed.

Lemma contiguous_from_zero_prefix (a b : list N) :
  contiguous_from_zero (a ++ b) → contiguous_from_zero a.
Proof.
  unfold contiguous_from_zero. rewrite length_app, run_from_app.
  intros Heq. apply app_inj_1 in Heq as [Ha _]; [done|].
  by rewrite run_from_length.
Qed.

Lemma result_mapM_app_prefix {A B} (f : A → result B) (a b : list A) :
  succeeds (mapM f (a ++ b)) → succeeds (mapM f a).
Proof.
  induction a as [|x a IH]; [by eexists|].
  cbn [app]. rewrite !result_mapM_cons.
  destruct (f x) as [y|e]; [|by intros [? ?]]. run_result.
  intros [vs Hvs].
  destruct (mapM f (a ++ b)) as [vs'|e] eqn:E; [|done].
  destruct IH as [va Hva]; [by eexists|]. rewrite Hva. by eexists.
Qed.

(** X16.  A failure is final: when a log with at least one matching line
    fails to parse, so does every log that continues it. *)
Theorem psnr_failure_is_final (l1 l2 : list string) :
  matched_records l1 ≠ [] →
  fails (Psnr._get_quality_scores l1) →
  fails (Psnr._get_quality_scores (l1 ++ l2)).
Proof.
  intros Hne Hfail.
  destruct (result_cases (Psnr._get_quality_scores (l1 ++ l2)))
    as [[r Hr]|Hf]; [|done].
  apply psnr_get_quality_scores_ok in Hr as (_ & Hidx & vals & Hvals & _).
  rewrite matched_records_app, fmap_app in Hidx.
  apply contiguous_from_zero_prefix in Hidx.
  unfold record_values in Hvals. rewrite matched_records_app, fmap_app in Hvals.
  destruct (result_mapM_app_prefix py_float (matched_records l1).*2
              (matched_records l2).*2) as [va Hva]; [by eexists|].
  destruct Hfail as [e He].
  assert (Hok : Psnr._get_quality_scores l1
                = Ok {[ "PSNR_scores"%string := va ]}).
  { apply psnr_get_quality_scores_ok. split; [done|]. split; [done|].
    by exists va. }
  congruence.
Qed.

Lemma psnr_failure_is_final_witness :
  fails (Psnr._get_quality_scores
           (["psnr: 1 30.1"%string] ++ ["psnr: 0 29"; "psnr: 1 31"]%string)).
Proof.
  apply (psnr_failure_is_final ["psnr: 1 30.1"%string]
           ["psnr: 0 29"; "psnr: 1 31"]%string).
  - discriminate.
  - by eexists.
Defined.

(** ** More on the structured log *)

Lemma string_app_length (s t : string) :
  String.length (s +:+ t) = (String.length s + String.length t)%nat.
Proof.
  induction s as [|c s IH]; [done|].
  rewrite string_app_cons. cbn. by rewrite IH.
Qed.

Lemma string_app_inv_tail (s1 s2 t : string) :
  (s1 +:+ t = s2 +:+ t)%string → s1 = s2.
Proof.
  revert s2. induction s1 as [|c s1 IH]; intros [|c2 s2] Heq; [done| | |].
  - apply (f_equal String.length) in Heq.
    rewrite string_app_nil_l, string_app_cons in Heq. cbn in Heq.
    rewrite string_app_length in Heq. lia.
  - apply (f_equal String.length) in Heq.
    rewrite string_app_nil_l, string_app_cons in Heq. cbn in Heq.
    rewrite string_app_length in Heq. lia.
  - rewrite !string_app_cons in Heq. injection Heq as -> Heq.
    f_equal. by apply IH.
Qed.

(** X17.  The result keys of the combined native-output variant never
    collide: distinct sub-feature names give distinct keys, and no
    sub-feature name gives the key of the final scores. *)
Theorem vmafossexec_keys_distinct (f g : string) :
  (VmafossExec.get_feature_scores_key f
   = VmafossExec.get_feature_scores_key g → f = g)
  ∧ VmafossExec.get_feature_scores_key f
    ≠ get_scores_key VmafossExecQualityRunner.
Proof.
  unfold VmafossExec.get_feature_scores_key, get_scores_key. cbn [TYPE].
  split.
  - intros Heq. apply String.app_inj in Heq. apply String.app_inj in Heq.
    by apply string_app_inv_tail in Heq.
  - intros Heq. apply String.app_inj in Heq.
    apply (f_equal String.length) in Heq.
    rewrite string_app_cons, string_app_nil_l in Heq. cbn in Heq.
    rewrite string_app_length in Heq. cbn in Heq. lia.
Qed.

Lemma vmafossexec_keys_distinct_witness :
  "vif"%string = "vif"%string.
Proof.
  apply (vmafossexec_keys_distinct "vif" "vif"). reflexivity.
Defined.

Lemma for_each_ok_inv {S A} (body : S → A → result S) (xs : list A)
    (st st' : S) (x : A) :
  for_each body st xs = Ok st' → x ∈ xs → ∃ s1 s2, body s1 x = Ok s2.
Proof.
  revert st. induction xs as [|y xs IH]; intros st Hok Hx;
    [by apply elem_of_nil in Hx|].
  cbn [for_each] in Hok. destruct (body st y) as [st1|e] eqn:E; [|done].
  apply elem_of_cons in Hx as [->|Hx]; [eauto|]. by eapply IH.
Qed.

Lemma elem_of_enumerate {A} (l : list A) (x : A) :
  x ∈ l → ∃ i, (i, x) ∈ enumerate l.
Proof.
  unfold enumerate. generalize 0%nat.
  induction l as [|y l IH]; intros k Hx; [by apply elem_of_nil in Hx|].
  apply elem_of_cons in Hx as [->|Hx].
  - exists k. cbn. by apply elem_of_cons; left.
  - destruct (IH (S k) Hx) as [i Hi]. exists i. cbn.
    by apply elem_of_cons; right.
Qed.

Section vmafossexec_inv.

Variable float : string → result Q.

Import VmafossExec.

Lemma scan_frame_ok_inv st st' frame :
  scan_frame float st frame = Ok st' →
  is_Some (frame !! "vmaf"%string) ∧ numeric_frame float frame.
Proof.
  destruct st as [scores fs]. unfold scan_frame, getitem.
  destruct (frame !! "vmaf"%string) as [s|] eqn:Hs; [|done]. run_result.
  destruct (float s) as [v|e] eqn:Hv; [|done]. run_result.
  destruct (for_each (scan_feature float frame) fs (enumerate FEATURES))
    as [fs'|e] eqn:Hfs; [|done].
  intros _. split; [done|]. intros k s' Hk Hs'.
  apply elem_of_cons in Hk as [->|Hk].
  - rewrite Hs in Hs'. injection Hs' as <-. by eexists.
  - destruct (elem_of_enumerate FEATURES k Hk) as [i Hi].
    destruct (for_each_ok_inv _ _ _ _ _ Hfs Hi) as (s1 & s2 & Hstep).
    unfold scan_feature in Hstep. rewrite Hs' in Hstep.
    destruct (float s') as [v'|e']; [by eexists|done].
Qed.

Lemma scan_frames_ok_inv frames st st' :
  for_each (scan_frame float) st frames = Ok st' →
  Forall (λ frame, is_Some (frame !! "vmaf"%string)) frames
  ∧ Forall (numeric_frame float) frames.
Proof.
  intros Hok.
  assert (H : ∀ frame, frame ∈ frames →
              is_Some (frame !! "vmaf"%string) ∧ numeric_frame float frame).
  { intros frame Hin.
    destruct (for_each_ok_inv _ _ _ _ _ Hok Hin) as (s1 & s2 & Hstep).
    by eapply scan_frame_ok_inv. }
  split; apply Forall_forall; intros frame Hin; by apply H.
Qed.

Lemma vmafossexec_result_closed frames :
  frames ≠ [] →
  Forall (λ frame, is_Some (frame !! "vmaf"%string)) frames →
  Forall (numeric_frame float) frames →
  _get_quality_scores float frames
  = Ok (foldl (publish float frames)
          {[ get_scores_key VmafossExecQualityRunner
             := attribute_values float "vmaf" frames ]} FEATURES).
Proof.
  intros Hne Hvmaf Hnum. unfold _get_quality_scores.
  rewrite scan_frames_ok by (done || by rewrite length_fmap).
  rewrite zip_with_fmap_const_l. cbn [app mbind result_bind bind].
  assert (Hlen : length (attribute_values float "vmaf" frames)
                 = length frames).
  { rewrite attribute_values_length by (done || by apply elem_of_cons; left).
    f_equal. clear -Hvmaf.
    induction Hvmaf as [|frame frames H1 H IH]; [done|].
    by rewrite filter_cons, decide_True, IH by done. }
  destruct (attribute_values float "vmaf" frames) as [|v vals] eqn:Hvals.
  { by destruct frames. }
  cbn [length Nat.eqb negb assert mbind result_bind bind].
  pose proof (publish_features_ok float frames FEATURES []) as Hpub.
  cbn [app length] in Hpub. unfold enumerate. by rewrite Hpub.
Qed.

Lemma vmafossexec_ok_inv frames r :
  _get_quality_scores float frames = Ok r →
  frames ≠ []
  ∧ Forall (λ frame, is_Some (frame !! "vmaf"%string)) frames
  ∧ Forall (numeric_frame float) frames.
Proof.
  unfold _get_quality_scores. intros Hok.
  destruct (for_each (scan_frame float) ([], (λ _, []) <$> FEATURES) frames)
    as [[scores fs]|e] eqn:Hloop; [|done].
  split; [|by eapply scan_frames_ok_inv].
  intros ->. cbn in Hloop. injection Hloop as <- <-. done.
Qed.

Lemma attribute_values_nonempty k frames :
  Forall (numeric_frame float) frames →
  k ∈ "vmaf"%string :: FEATURES →
  attribute_values float k frames ≠ [] ↔
  Exists (λ frame : gmap string string, is_Some (frame !! k)) frames.
Proof.
  intros Hnum Hk.
  pose proof (attribute_values_length float k frames Hnum Hk) as Hlen.
  rewrite Exists_exists. split.
  - intros Hne.
    destruct (filter (λ frame : gmap string string, is_Some (frame !! k))
                frames) as [|frame l] eqn:Hf.
    { by apply nil_length_inv in Hlen. }
    assert (Hmem : frame ∈ filter
              (λ frame : gmap string string, is_Some (frame !! k)) frames)
      by (rewrite Hf; by apply elem_of_cons; left).
    apply list_elem_of_filter in Hmem as [Hsome Hin]. by exists frame.
  - intros (frame & Hin & Hsome) Hnil. rewrite Hnil in Hlen.
    apply eq_sym, nil_length_inv in Hlen.
    assert (Hmem : frame ∈ filter
              (λ frame : gmap string string, is_Some (frame !! k)) frames)
      by by apply list_elem_of_filter.
    rewrite Hlen in Hmem. by apply elem_of_nil in Hmem.
Qed.

End vmafossexec_inv.

(** X18.  The parse of the structured log succeeds exactly when there is
    at least one frame, every frame carries [vmaf], and every attribute
    the parser reads converts to a number; in particular a sub-feature
    attribute that is present but not numeric is fatal, the handler
    catching [KeyError] only. *)
Theorem vmafossexec_parse_succeeds_iff (float : string → result Q)
    (frames : list (gmap string string)) :
  (succeeds (VmafossExec._get_quality_scores float frames) ↔
     frames ≠ []
     ∧ Forall (λ frame : gmap string string,
                 is_Some (frame !! "vmaf"%string)) frames
     ∧ Forall (VmafossExec.numeric_frame float) frames)
  ∧ (∀ frame f s,
       frame ∈ frames → f ∈ VmafossExec.FEATURES →
       frame !! f = Some s → fails (float s) →
       fails (VmafossExec._get_quality_scores float frames)).
Proof.
  assert (Hiff : succeeds (VmafossExec._get_quality_scores float frames) ↔
     frames ≠ []
     ∧ Forall (λ frame : gmap string string,
                 is_Some (frame !! "vmaf"%string)) frames
     ∧ Forall (VmafossExec.numeric_frame float) frames).
  { split.
    - intros [r Hr]. by eapply vmafossexec_ok_inv.
    - intros (Hne & Hvmaf & Hnum). eexists.
      by apply vmafossexec_result_closed. }
  split; [done|]. intros frame f s Hin Hf Hs [e He].
  destruct (result_cases (VmafossExec._get_quality_scores float frames))
    as [Hok|Hfail]; [|done].
  apply Hiff in Hok as (_ & _ & Hnum).
  rewrite Forall_forall in Hnum.
  destruct (Hnum frame Hin f s) as [v Hv]; [by apply elem_of_cons; right|done|].
  congruence.
Qed.

Lemma vmafossexec_parse_succeeds_iff_witness :
  fails (VmafossExec._get_quality_scores py_float
           [ {[ "vmaf" := "90.5"; "adm2" := "n/a" ]} ]%string).
Proof.
  destruct (vmafossexec_parse_succeeds_iff py_float
              [ {[ "vmaf" := "90.5"; "adm2" := "n/a" ]} ]%string)
    as [_ Hbad].
  apply (Hbad {[ "vmaf" := "90.5"; "adm2" := "n/a" ]}%string
           "adm2"%string "n/a"%string).
  - by apply elem_of_cons; left.
  - apply (bool_decide_unpack _). by vm_compute.
  - by vm_compute.
  - by eexists.
Defined.

(** X19.  On success the result holds the key of the final scores and,
    for the declared sub-features, the keys of those some frame carries,
    and nothing else. *)
Theorem vmafossexec_result_keys (float : string → result Q)
    (frames : list (gmap string string)) (r : gmap string (list Q))
    (k : string) :
  VmafossExec._get_quality_scores float frames = Ok r →
  is_Some (r !! k) ↔
  k = get_scores_key VmafossExecQualityRunner
  ∨ ∃ f, f ∈ VmafossExec.FEATURES
         ∧ k = VmafossExec.get_feature_scores_key f
         ∧ Exists (λ frame : gmap string string, is_Some (frame !! f)) frames.
Proof.
  intros Hr.
  destruct (vmafossexec_ok_inv float frames r Hr) as (Hne & Hvmaf & Hnum).
  assert (r = foldl (VmafossExec.publish float frames)
                {[ get_scores_key VmafossExecQualityRunner
                   := VmafossExec.attribute_values float "vmaf" frames ]}
                VmafossExec.FEATURES) as ->.
  { rewrite vmafossexec_result_closed in Hr by done. congruence. }
  clear Hr.
  pose proof vmafossexec_keys_NoDup as [Hscores Hnd]%NoDup_cons.
  destruct (decide (k ∈ VmafossExec.get_feature_scores_key
                        <$> VmafossExec.FEATURES)) as [Hk|Hk].
  - apply list_elem_of_fmap in Hk as (f & -> & Hf).
    rewrite publish_lookup by done.
    assert (Hfk : f ∈ "vmaf"%string :: VmafossExec.FEATURES)
      by (by apply elem_of_cons; right).
    pose proof (attribute_values_nonempty float f frames Hnum Hfk) as Hex.
    destruct (VmafossExec.attribute_values float f frames) as [|v l] eqn:Hl.
    + rewrite lookup_singleton_ne
        by (intros Heq; apply Hscores; rewrite Heq;
            by apply list_elem_of_fmap_2).
      split; [by intros [? ?]|].
      intros [Heq|(g & Hg & Heq & Hexg)].
      * exfalso. apply Hscores. rewrite <- Heq. by apply list_elem_of_fmap_2.
      * apply vmafossexec_keys_distinct in Heq as ->.
        by apply Hex in Hexg.
    + split; [|by eexists]. intros _. right. exists f.
      split; [done|]. split; [done|]. by apply Hex.
  - rewrite publish_lookup_other by done. split.
    + intros [l Hl]. apply lookup_singleton_Some in Hl as [<- _]. by left.
    + intros [->|(f & Hf & -> & _)].
      * rewrite lookup_singleton_eq. by eexists.
      * exfalso. apply Hk. by apply list_elem_of_fmap_2.
Qed.

Lemma vmafossexec_result_keys_witness :
  is_Some (({[ "VMAFOSSEXEC_scores" := [90.5]; "VMAFOSSEXEC_adm2_scores" := [0.9] ]}
              : gmap string (list Q)) !! "VMAFOSSEXEC_adm2_scores"%string).
Proof.
  apply (vmafossexec_result_keys py_float
           [ {[ "vmaf" := "90.5"; "adm2" := "0.9" ]} ]%string
           {[ "VMAFOSSEXEC_scores" := [90.5];
              "VMAFOSSEXEC_adm2_scores" := [0.9] ]}%string
           "VMAFOSSEXEC_adm2_scores"%string).
  - vm_compute. reflexivity.
  - right. exists "adm2"%string. split.
    + apply (bool_decide_unpack _). by vm_compute.
    + split; [reflexivity|]. apply Exists_cons_hd. by eexists.
Defined.

(** ** Runners that publish one extracted feature as their score *)

(** X20.  SsimQualityRunner, MsSsimQualityRunner and StrredQualityRunner
    rename one entry of the feature result: the sequence stored under the
    extractor's key moves to the runner's scores key, the extractor's key
    disappears, every other entry is kept, and the number of entries is
    unchanged unless the scores key was already taken.  A feature result
    without the extractor's key raises [KeyError]. *)
Theorem feature_as_score_renames (cls : runner) (extractor_scores_key : string)
    (feature_result : gmap string (list Q)) :
  (feature_result !! extractor_scores_key = None →
     FeatureAsScore._run_on_asset cls extractor_scores_key feature_result
     = Raise (KeyError extractor_scores_key))
  ∧ (∀ scores,
       feature_result !! extractor_scores_key = Some scores →
       extractor_scores_key ≠ get_scores_key cls →
       ∃ r,
         FeatureAsScore._run_on_asset cls extractor_scores_key feature_result
         = Ok r
         ∧ r !! get_scores_key cls = Some scores
         ∧ r !! extractor_scores_key = None
         ∧ (∀ k, k ≠ extractor_scores_key → k ≠ get_scores_key cls →
              r !! k = feature_result !! k)
         ∧ (feature_result !! get_scores_key cls = None →
              size r = size feature_result)).
Proof.
  unfold FeatureAsScore._run_on_asset, getitem. split.
  - by intros ->.
  - intros scores Hs Hne. rewrite Hs. run_result.
    rewrite lookup_insert_ne, Hs by done. run_result.
    eexists. split; [done|]. split; [|split; [|split]].
    + by rewrite lookup_delete_ne, lookup_insert_eq.
    + by rewrite lookup_delete_eq.
    + intros k Hk1 Hk2. by rewrite lookup_delete_ne, lookup_insert_ne.
    + intros Hfree.
      rewrite map_size_delete, lookup_insert_ne, Hs by done.
      rewrite map_size_insert, Hfree. lia.
Qed.

Lemma feature_as_score_renames_witness :
  ∃ r,
    FeatureAsScore._run_on_asset SsimQualityRunner "SSIM_feature_ssim_scores"
      {[ "SSIM_feature_ssim_scores"%string := [0.9; 0.8];
         "SSIM_feature_ssim_l_scores"%string := [1; 1] ]}
    = Ok r
    ∧ r !! get_scores_key SsimQualityRunner = Some [0.9; 0.8]
    ∧ r !! "SSIM_feature_ssim_scores"%string = None
    ∧ (∀ k, k ≠ "SSIM_feature_ssim_scores"%string →
            k ≠ get_scores_key SsimQualityRunner →
            r !! k
            = ({[ "SSIM_feature_ssim_scores"%string := [0.9; 0.8];
                  "SSIM_feature_ssim_l_scores"%string := [1; 1] ]}
                 : gmap string (list Q)) !! k)
    ∧ (({[ "SSIM_feature_ssim_scores"%string := [0.9; 0.8];
           "SSIM_feature_ssim_l_scores"%string := [1; 1] ]}
          : gmap string (list Q)) !! get_scores_key SsimQualityRunner = None →
       size r
       = size ({[ "SSIM_feature_ssim_scores"%string := [0.9; 0.8];
                  "SSIM_feature_ssim_l_scores"%string := [1; 1] ]}
                 : gmap string (list Q))).
Proof.
  destruct (feature_as_score_renames SsimQualityRunner
              "SSIM_feature_ssim_scores"
              {[ "SSIM_feature_ssim_scores"%string := [0.9; 0.8];
                 "SSIM_feature_ssim_l_scores"%string := [1; 1] ]})
    as [_ Hpresent].
  apply (Hpresent [0.9; 0.8]).
  - vm_compute. reflexivity.
  - discriminate.
Defined.

(** ** Result keys across the runner classes *)

Lemma TYPE_inj (c1 c2 : runner) : TYPE c1 = TYPE c2 → c1 = c2.
Proof. destruct c1, c2; intros H; (reflexivity || discriminate H). Qed.

(** X21.  No two runner classes share a result key: the scores keys are
    pairwise distinct, so are the score keys, and no scores key is the
    score key of any class. *)
Theorem runner_keys_distinct (c1 c2 : runner) :
  (get_scores_key c1 = get_scores_key c2 → c1 = c2)
  ∧ (get_score_key c1 = get_score_key c2 → c1 = c2)
  ∧ get_scores_key c1 ≠ get_score_key c2.
Proof.
  unfold get_scores_key, get_score_key. split; [|split].
  - intros Heq. by apply string_app_inv_tail, TYPE_inj in Heq.
  - intros Heq. by apply string_app_inv_tail, TYPE_inj in Heq.
  - intros Heq.
    assert (Heq' : (TYPE c1 +:+ "_score" +:+ "s")%string
                   = (TYPE c2 +:+ "_score")%string) by done.
    destruct c1, c2; vm_compute in Heq'; discriminate Heq'.
Qed.

Lemma runner_keys_distinct_witness :
  VmafQualityRunner = VmafQualityRunner.
Proof.
  apply (runner_keys_distinct VmafQualityRunner VmafQualityRunner).
  reflexivity.
Defined.

(** ** The model path of the configuration *)

(** X22.  A configuration that holds [model_filepath] as [None] runs as
    the configuration without that key does: the default model is
    loaded. *)
Theorem vmaf_run_model_filepath_None (from_file : value → TrainTestModel)
    (DEFAULT_MODEL_FILEPATH : value)
    (get_per_unit_xs_from_a_result :
       TrainTestModel → gmap string (list Q) → list (list Q))
    (cls : runner) (d : gmap string value)
    (feature_result : gmap string (list Q)) :
  d !! "model_filepath"%string = Some VNone →
  VmafRun._load_model from_file DEFAULT_MODEL_FILEPATH (Some d)
  = from_file DEFAULT_MODEL_FILEPATH
  ∧ VmafRun._run_on_asset from_file DEFAULT_MODEL_FILEPATH
      get_per_unit_xs_from_a_result cls (Some d) feature_result
    = VmafRun._run_on_asset from_file DEFAULT_MODEL_FILEPATH
        get_per_unit_xs_from_a_result cls
        (Some (delete "model_filepath"%string d)) feature_result.
Proof.
  intros Hd. unfold VmafRun._run_on_asset, VmafRun._load_model, option_or.
  rewrite Hd, lookup_delete_eq. split; [done|].
  by rewrite !lookup_delete_ne by done.
Qed.

Lemma vmaf_run_model_filepath_None_witness :
  VmafRun._load_model (λ _, bare_model) (VStr "vmaf_v0.6.1.pkl")
    (Some {[ "model_filepath" := VNone ]})
  = (λ _, bare_model) (VStr "vmaf_v0.6.1.pkl").
Proof.
  apply (vmaf_run_model_filepath_None (λ _, bare_model)
           (VStr "vmaf_v0.6.1.pkl") (λ _ _, []) VmafQualityRunner
           {[ "model_filepath" := VNone ]} ∅).
  vm_compute. reflexivity.
Defined.
